(** * A shallow embedding of the catcher game (tulu-game)

  The development follows the TypeScript sources of the menu-driven
  ("extended") variant of the game: the configuration ([config.ts]), the
  entities ([entities.ts]), the input flags ([input.ts]) and the game state
  machine with its per-frame simulation step ([game.ts]).

  Conventions of the embedding.
  - A JavaScript [number] that measures time or geometry is an exact
    rational ([Q]); rounding of IEEE doubles is not modelled, except in
    [Binary64], where the difficulty curve is evaluated on doubles, and in
    [ClassicBinary64], where the spawn loop of the canvas variant runs on
    doubles.
    [lastBombTime], which starts at [-Infinity], is an [xnum]; the spawn
    interval, which may be [Infinity], is an [option Q].
  - Counters (lives, score, the selected character index) are integers
    ([Z]); the remainder operator [%] is [Z.rem], which like JavaScript's
    takes the sign of the dividend.
  - [Math.random()] reads the next value of a stream of draws ([Rng]).
  - Objects that the code mutates in place (the session state, the input
    flags, the player, the falling items) are passed explicitly and
    returned updated.
  - A [TypeError] (reading a property of [undefined]) is [None]. *)

From Stdlib Require Import ZArith QArith List String Bool Lia Lqa.
From Stdlib Require Import Qround.
From Stdlib Require Import Floats.PrimFloat.
From Stdlib Require Import Floats.SpecFloat Floats.FloatOps Floats.FloatAxioms.
From Equations Require Import Equations.
Import ListNotations.

Open Scope string_scope.
Open Scope list_scope.
Open Scope Q_scope.

(* A decimal literal of a double denotes the nearest double, as in
   JavaScript. *)
Set Warnings "-inexact-float".

(** ** JavaScript numbers *)

Module Js.

(** [x < y] on numbers, as a boolean. *)
Definition ltb (a b : Q) : bool := negb (Qle_bool b a).
(** [x <= y]. *)
Definition leb (a b : Q) : bool := Qle_bool a b.
(** [x > y]. *)
Definition gtb (a b : Q) : bool := ltb b a.
(** [x >= y]. *)
Definition geb (a b : Q) : bool := Qle_bool b a.

Definition Math_max (a b : Q) : Q := if Qle_bool a b then b else a.
Definition Math_min (a b : Q) : Q := if Qle_bool a b then a else b.
Definition Math_abs (a : Q) : Q := if Qle_bool 0 a then a else - a.
Definition Math_sign (a : Q) : Q :=
  if ltb 0 a then 1 else if ltb a 0 then - (1) else 0.

(** Numbers extended with the two infinities. *)
Inductive xnum : Type :=
| NegInfinity
| Finite (q : Q)
| Infinity.

(** [t - l] for a finite [t]. *)
Definition xsub (t : Q) (l : xnum) : xnum :=
  match l with
  | NegInfinity => Infinity
  | Finite q => Finite (t - q)
  | Infinity => NegInfinity
  end.

(** [a < b] for a finite [b]. *)
Definition xltb (a : xnum) (b : Q) : bool :=
  match a with
  | NegInfinity => true
  | Finite q => ltb q b
  | Infinity => false
  end.

(** The truth value of an optional boolean property ([undefined] is falsy). *)
Definition truthy (b : option bool) : bool :=
  match b with
  | Some v => v
  | None => false
  end.

(** [a ?? d]. *)
Definition nullish {A : Type} (a : option A) (d : A) : A :=
  match a with
  | Some v => v
  | None => d
  end.

(** [arr[i]]: [undefined] outside the array. *)
Definition index {A : Type} (arr : list A) (i : Z) : option A :=
  if (i <? 0)%Z then None else nth_error arr (Z.to_nat i).

(** [arr.find(p)]. *)
Definition find {A : Type} (p : A -> bool) (arr : list A) : option A :=
  List.find p arr.

(** The source of [Math.random()]: a stream of draws and a read position. *)
Record Rng : Type := mkRng { draws : nat -> Q; cursor : nat }.

Definition Math_random (g : Rng) : Q * Rng :=
  (draws g (cursor g), mkRng (draws g) (S (cursor g))).

End Js.
Import Js.

(** ** config.ts *)

Module Config.

Record GameConfig : Type := {
  cfg_width : Q;
  cfg_height : Q;
  backgroundColor : string;
  targetFPS : Q;
  initialLives : Z
}.

Definition GAME_CONFIG : GameConfig := {|
  cfg_width := 700;
  cfg_height := 500;
  backgroundColor := "#1a1b26";
  targetFPS := 60;
  initialLives := 3
|}.

Definition MAX_SPAWNS_PER_FRAME : nat := 2.

Definition RARE_ITEM_CHANCE : Q := 0.15.

Record ItemTypeConfig : Type := {
  it_id : string;
  it_spritePath : option string;
  scoreValue : Z;
  spawnWeight : Z;
  it_width : option Q;
  it_height : option Q;
  baseFallSpeed : Q;
  isHazard : option bool
}.

Definition plainItem (name path : string) (score : Z) : ItemTypeConfig := {|
  it_id := name;
  it_spritePath := Some path;
  scoreValue := score;
  spawnWeight := 1;
  it_width := Some 32;
  it_height := Some 32;
  baseFallSpeed := 80;
  isHazard := None
|}.

Definition bombItem : ItemTypeConfig := {|
  it_id := "bomb";
  it_spritePath := Some "/assets/items/bomb.png";
  scoreValue := 0;
  spawnWeight := 1;
  it_width := Some 32;
  it_height := Some 32;
  baseFallSpeed := 85;
  isHazard := Some true
|}.

Definition ITEM_TYPES : list ItemTypeConfig := [
  plainItem "itemA" "/assets/items/itemA.png" 1;
  plainItem "itemD" "/assets/items/itemD.png" 2;
  plainItem "itemB" "/assets/items/itemB.png" 1;
  plainItem "itemF" "/assets/items/itemF.png" 2;
  plainItem "itemC" "/assets/items/itemC.png" 1;
  plainItem "itemE" "/assets/items/itemE.png" 2;
  plainItem "itemG" "/assets/items/itemG.png" 1;
  plainItem "itemH" "/assets/items/itemH.png" 2;
  bombItem
].

Record DifficultyKeyframe : Type := {
  time : Q;
  spawnRate : Q;
  speedMultiplier : Q
}.

Definition DIFFICULTY_CURVE : list DifficultyKeyframe := [
  {| time := 0; spawnRate := 0.6; speedMultiplier := 0.8 |};
  {| time := 30; spawnRate := 1.2; speedMultiplier := 1.0 |};
  {| time := 60; spawnRate := 1.8; speedMultiplier := 1.2 |};
  {| time := 90; spawnRate := 2.4; speedMultiplier := 1.4 |};
  {| time := 120; spawnRate := 3.0; speedMultiplier := 1.6 |}
].

(** The object [{ spawnRate, speedMultiplier }] that [getDifficulty] returns. *)
Record Difficulty : Type := {
  d_spawnRate : Q;
  d_speedMultiplier : Q
}.

Definition ofKeyframe (k : DifficultyKeyframe) : Difficulty :=
  {| d_spawnRate := spawnRate k; d_speedMultiplier := speedMultiplier k |}.

(** The body of the [for] loop at the pair [(a, b)] of adjacent keyframes. *)
Definition interpolate (a b : DifficultyKeyframe) (t : Q) : Difficulty :=
  let f := (t - time a) / (time b - time a) in
  {| d_spawnRate := spawnRate a + (spawnRate b - spawnRate a) * f;
     d_speedMultiplier :=
       speedMultiplier a + (speedMultiplier b - speedMultiplier a) * f |}.

(** The [for] loop over the adjacent pairs of the curve: the first pair
    whose closed interval holds [t] decides. *)
Fixpoint segmentLoop (curve : list DifficultyKeyframe) (t : Q)
  : option Difficulty :=
  match curve with
  | a :: ((b :: _) as rest) =>
      if geb t (time a) && leb t (time b)
      then Some (interpolate a b t)
      else segmentLoop rest t
  | _ => None
  end.

(** Only a default for [hd] and [last]: the curve is not empty. *)
Definition zeroKeyframe : DifficultyKeyframe :=
  {| time := 0; spawnRate := 0; speedMultiplier := 0 |}.

Definition getDifficulty (t : Q) : Difficulty :=
  if leb t 0 then ofKeyframe (hd zeroKeyframe DIFFICULTY_CURVE)
  else
    match segmentLoop DIFFICULTY_CURVE t with
    | Some d => d
    | None => ofKeyframe (last DIFFICULTY_CURVE zeroKeyframe)
    end.

Record CharacterConfig : Type := {
  ch_id : string;
  ch_name : string;
  ch_spritePath : option string;
  ch_color : string
}.

Definition CHARACTERS : list CharacterConfig := [
  {| ch_id := "playerA"; ch_name := "Wiebke";
     ch_spritePath := Some "/assets/players/playerA.png"; ch_color := "#4fd1c5" |};
  {| ch_id := "playerB"; ch_name := "Kathi";
     ch_spritePath := Some "/assets/players/playerB.png"; ch_color := "#fbd38d" |};
  {| ch_id := "playerC"; ch_name := "Anne";
     ch_spritePath := Some "/assets/players/playerC.png"; ch_color := "#f687b3" |};
  {| ch_id := "playerD"; ch_name := "Hannah";
     ch_spritePath := Some "/assets/players/playerD.png"; ch_color := "#9f7aea" |}
].

(** [CHARACTERS.length]. *)
Definition CHARACTERS_length : Z := Z.of_nat (List.length CHARACTERS).

End Config.
Import Config.

(** ** config.ts, over binary64

    [getDifficulty] once more, with the numbers as the IEEE doubles that
    JavaScript computes with; it serves to evaluate the curve at given
    times, rounding included. *)

Module Binary64.

Local Open Scope float_scope.

Record DifficultyKeyframe : Type := {
  time : float;
  spawnRate : float;
  speedMultiplier : float
}.

Definition DIFFICULTY_CURVE : list DifficultyKeyframe := [
  {| time := 0; spawnRate := 0.6; speedMultiplier := 0.8 |};
  {| time := 30; spawnRate := 1.2; speedMultiplier := 1.0 |};
  {| time := 60; spawnRate := 1.8; speedMultiplier := 1.2 |};
  {| time := 90; spawnRate := 2.4; speedMultiplier := 1.4 |};
  {| time := 120; spawnRate := 3.0; speedMultiplier := 1.6 |}
].

Definition interpolate (a b : DifficultyKeyframe) (t : float) : float * float :=
  let f := (t - time a) / (time b - time a) in
  (spawnRate a + (spawnRate b - spawnRate a) * f,
   speedMultiplier a + (speedMultiplier b - speedMultiplier a) * f).

Fixpoint segmentLoop (curve : list DifficultyKeyframe) (t : float)
  : option (float * float) :=
  match curve with
  | a :: ((b :: _) as rest) =>
      if PrimFloat.leb (time a) t && PrimFloat.leb t (time b)
      then Some (interpolate a b t)
      else segmentLoop rest t
  | _ => None
  end.

Definition zeroKeyframe : DifficultyKeyframe :=
  {| time := 0; spawnRate := 0; speedMultiplier := 0 |}.

(** The pair is [(spawnRate, speedMultiplier)]. *)
Definition getDifficulty (t : float) : float * float :=
  if PrimFloat.leb t 0
  then (spawnRate (hd zeroKeyframe DIFFICULTY_CURVE),
        speedMultiplier (hd zeroKeyframe DIFFICULTY_CURVE))
  else
    match segmentLoop DIFFICULTY_CURVE t with
    | Some d => d
    | None => (spawnRate (last DIFFICULTY_CURVE zeroKeyframe),
               speedMultiplier (last DIFFICULTY_CURVE zeroKeyframe))
    end.

End Binary64.

(** ** entities.ts *)

Module Entities.

Record Rect : Type := {
  x : Q;
  y : Q;
  width : Q;
  height : Q
}.

Inductive GameScreen : Type :=
| start
| characterSelect
| playing
| gameOver.

(** [Player extends Rect]. *)
Record Player : Type := {
  p_rect :> Rect;
  speed : Q;
  color : string;
  character : CharacterConfig
}.

(** [FallingItem extends Rect]. *)
Record FallingItem : Type := {
  i_rect :> Rect;
  vy : Q;
  type : ItemTypeConfig
}.

Record MissEffect : Type := {
  fx_x : Q;
  fx_y : Q;
  radius : Q;
  timer : Q;
  maxTimer : Q
}.

Record GameState : Type := {
  screen : GameScreen;
  player : option Player;
  selectedCharacterIndex : Z;
  score : Z;
  lives : Z;
  elapsedTime : Q;
  spawnAccumulator : Q;
  items : list FallingItem;
  missEffects : list MissEffect;
  lastBombTime : xnum;
  lastSpawnX : Q
}.

Definition createPlayer (c : CharacterConfig) (canvasWidth canvasHeight : Q)
  : Player :=
  let w := 50 in
  let h := 100 in
  {| p_rect := {| x := canvasWidth / 2 - w / 2;
                  y := canvasHeight - h - 4;
                  width := w;
                  height := h |};
     speed := 300;
     color := ch_color c;
     character := c |}.

(** [lastSpawnX] is [None] when the argument is absent or not finite. *)
Definition createFallingItem (ty : ItemTypeConfig) (canvasWidth : Q)
    (lastSpawnX : option Q) (g : Rng) : FallingItem * Rng :=
  let w := nullish (it_width ty) 12 in
  let h := nullish (it_height ty) 12 in
  let margin := 12 in
  let minX := margin in
  let maxX := canvasWidth - w - margin in
  let (r, g1) := Math_random g in
  let x0 := r * (maxX - minX) + minX in
  let x1 :=
    match lastSpawnX with
    | Some lastX =>
        let maxStep := canvasWidth * 0.35 in
        let delta := x0 - lastX in
        if gtb (Math_abs delta) maxStep
        then Math_max minX (Math_min maxX (lastX + Math_sign delta * maxStep))
        else x0
    | None => x0
    end in
  ({| i_rect := {| x := x1; y := - h; width := w; height := h |};
      vy := baseFallSpeed ty;
      type := ty |}, g1).

Definition aabbIntersect (a b : Rect) : bool :=
  negb (ltb (x a + width a) (x b)
        || gtb (x a) (x b + width b)
        || ltb (y a + height a) (y b)
        || gtb (y a) (y b + height b)).

End Entities.
Import Entities.

(** ** input.ts *)

Module Input.

Record InputState : Type := {
  left : bool;
  right : bool;
  confirm : bool;
  restart : bool;
  back : bool
}.

Definition createInputState : InputState :=
  {| left := false; right := false; confirm := false;
     restart := false; back := false |}.

Definition set_left (i : InputState) (v : bool) : InputState :=
  {| left := v; right := right i; confirm := confirm i;
     restart := restart i; back := back i |}.
Definition set_right (i : InputState) (v : bool) : InputState :=
  {| left := left i; right := v; confirm := confirm i;
     restart := restart i; back := back i |}.
Definition set_confirm (i : InputState) (v : bool) : InputState :=
  {| left := left i; right := right i; confirm := v;
     restart := restart i; back := back i |}.
Definition set_restart (i : InputState) (v : bool) : InputState :=
  {| left := left i; right := right i; confirm := confirm i;
     restart := v; back := back i |}.
Definition set_back (i : InputState) (v : bool) : InputState :=
  {| left := left i; right := right i; confirm := confirm i;
     restart := restart i; back := v |}.

Definition oneOf (code : string) (codes : list string) : bool :=
  existsb (String.eqb code) codes.

(** The [switch (e.code)] shared by the two listeners: [keyDown] writes
    [true] to the flag of the key, [keyUp] writes [false]. *)
Definition keySwitch (v : bool) (code : string) (i : InputState) : InputState :=
  if oneOf code ["ArrowLeft"; "KeyA"] then set_left i v
  else if oneOf code ["ArrowRight"; "KeyD"] then set_right i v
  else if oneOf code ["Enter"; "Space"] then set_confirm i v
  else if oneOf code ["KeyR"] then set_restart i v
  else if oneOf code ["Escape"; "Backspace"] then set_back i v
  else i.

Definition keyDown : string -> InputState -> InputState := keySwitch true.
Definition keyUp : string -> InputState -> InputState := keySwitch false.

End Input.
Import Input.

(** ** game.ts *)

Module Game.

(** *** Field updates of the session state *)

Definition set_screen (s : GameState) (v : GameScreen) : GameState :=
  {| screen := v; player := player s;
     selectedCharacterIndex := selectedCharacterIndex s;
     score := score s; lives := lives s; elapsedTime := elapsedTime s;
     spawnAccumulator := spawnAccumulator s; items := items s;
     missEffects := missEffects s; lastBombTime := lastBombTime s;
     lastSpawnX := lastSpawnX s |}.

Definition set_player (s : GameState) (v : option Player) : GameState :=
  {| screen := screen s; player := v;
     selectedCharacterIndex := selectedCharacterIndex s;
     score := score s; lives := lives s; elapsedTime := elapsedTime s;
     spawnAccumulator := spawnAccumulator s; items := items s;
     missEffects := missEffects s; lastBombTime := lastBombTime s;
     lastSpawnX := lastSpawnX s |}.

Definition set_selectedCharacterIndex (s : GameState) (v : Z) : GameState :=
  {| screen := screen s; player := player s;
     selectedCharacterIndex := v;
     score := score s; lives := lives s; elapsedTime := elapsedTime s;
     spawnAccumulator := spawnAccumulator s; items := items s;
     missEffects := missEffects s; lastBombTime := lastBombTime s;
     lastSpawnX := lastSpawnX s |}.

Definition set_score (s : GameState) (v : Z) : GameState :=
  {| screen := screen s; player := player s;
     selectedCharacterIndex := selectedCharacterIndex s;
     score := v; lives := lives s; elapsedTime := elapsedTime s;
     spawnAccumulator := spawnAccumulator s; items := items s;
     missEffects := missEffects s; lastBombTime := lastBombTime s;
     lastSpawnX := lastSpawnX s |}.

Definition set_lives (s : GameState) (v : Z) : GameState :=
  {| screen := screen s; player := player s;
     selectedCharacterIndex := selectedCharacterIndex s;
     score := score s; lives := v; elapsedTime := elapsedTime s;
     spawnAccumulator := spawnAccumulator s; items := items s;
     missEffects := missEffects s; lastBombTime := lastBombTime s;
     lastSpawnX := lastSpawnX s |}.

Definition set_elapsedTime (s : GameState) (v : Q) : GameState :=
  {| screen := screen s; player := player s;
     selectedCharacterIndex := selectedCharacterIndex s;
     score := score s; lives := lives s; elapsedTime := v;
     spawnAccumulator := spawnAccumulator s; items := items s;
     missEffects := missEffects s; lastBombTime := lastBombTime s;
     lastSpawnX := lastSpawnX s |}.

Definition set_spawnAccumulator (s : GameState) (v : Q) : GameState :=
  {| screen := screen s; player := player s;
     selectedCharacterIndex := selectedCharacterIndex s;
     score := score s; lives := lives s; elapsedTime := elapsedTime s;
     spawnAccumulator := v; items := items s;
     missEffects := missEffects s; lastBombTime := lastBombTime s;
     lastSpawnX := lastSpawnX s |}.

Definition set_items (s : GameState) (v : list FallingItem) : GameState :=
  {| screen := screen s; player := player s;
     selectedCharacterIndex := selectedCharacterIndex s;
     score := score s; lives := lives s; elapsedTime := elapsedTime s;
     spawnAccumulator := spawnAccumulator s; items := v;
     missEffects := missEffects s; lastBombTime := lastBombTime s;
     lastSpawnX := lastSpawnX s |}.

Definition set_missEffects (s : GameState) (v : list MissEffect) : GameState :=
  {| screen := screen s; player := player s;
     selectedCharacterIndex := selectedCharacterIndex s;
     score := score s; lives := lives s; elapsedTime := elapsedTime s;
     spawnAccumulator := spawnAccumulator s; items := items s;
     missEffects := v; lastBombTime := lastBombTime s;
     lastSpawnX := lastSpawnX s |}.

Definition set_lastBombTime (s : GameState) (v : xnum) : GameState :=
  {| screen := screen s; player := player s;
     selectedCharacterIndex := selectedCharacterIndex s;
     score := score s; lives := lives s; elapsedTime := elapsedTime s;
     spawnAccumulator := spawnAccumulator s; items := items s;
     missEffects := missEffects s; lastBombTime := v;
     lastSpawnX := lastSpawnX s |}.

Definition set_lastSpawnX (s : GameState) (v : Q) : GameState :=
  {| screen := screen s; player := player s;
     selectedCharacterIndex := selectedCharacterIndex s;
     score := score s; lives := lives s; elapsedTime := elapsedTime s;
     spawnAccumulator := spawnAccumulator s; items := items s;
     missEffects := missEffects s; lastBombTime := lastBombTime s;
     lastSpawnX := v |}.

(** The part of [GameRuntime] that the state machine reads and writes
    (the canvas, its context and the frame clock are left out). *)
Record GameRuntime : Type := {
  state : GameState;
  input : InputState;
  spawnRateDebug : Q
}.

Definition createInitialState : GameState :=
  {| screen := start;
     player := None;
     selectedCharacterIndex := 0;
     score := 0;
     lives := initialLives GAME_CONFIG;
     elapsedTime := 0;
     spawnAccumulator := 0;
     items := [];
     missEffects := [];
     lastBombTime := NegInfinity;
     lastSpawnX := cfg_width GAME_CONFIG / 2 |}.

(** [CHARACTERS[state.selectedCharacterIndex]] is [undefined] for an index
    outside the catalog; [createPlayer] then throws on [character.color],
    before any field of the state is written. *)
Definition beginPlay (s : GameState) : option GameState :=
  match index CHARACTERS (selectedCharacterIndex s) with
  | None => None
  | Some character =>
      Some {| screen := playing;
              player := Some (createPlayer character (cfg_width GAME_CONFIG)
                                           (cfg_height GAME_CONFIG));
              selectedCharacterIndex := selectedCharacterIndex s;
              score := 0;
              lives := initialLives GAME_CONFIG;
              elapsedTime := 0;
              spawnAccumulator := 0;
              items := [];
              missEffects := [];
              lastBombTime := NegInfinity;
              lastSpawnX := cfg_width GAME_CONFIG / 2 |}
  end.

Definition updateCharacterSelect (s : GameState) (i : InputState) (_dt : Q)
  : option (GameState * InputState) :=
  let (s1, i1) :=
    if left i
    then (set_selectedCharacterIndex s
            (Z.rem (selectedCharacterIndex s - 1 + CHARACTERS_length)
                   CHARACTERS_length),
          set_left i false)
    else (s, i) in
  let (s2, i2) :=
    if right i1
    then (set_selectedCharacterIndex s1
            (Z.rem (selectedCharacterIndex s1 + 1) CHARACTERS_length),
          set_right i1 false)
    else (s1, i1) in
  if confirm i2
  then match beginPlay s2 with
       | Some s3 => Some (s3, set_confirm i2 false)
       | None => None
       end
  else Some (s2, i2).

Definition updateGameOver (s : GameState) (i : InputState)
  : option (GameState * InputState) :=
  if restart i
  then match beginPlay s with
       | Some s1 => Some (s1, set_restart i false)
       | None => None
       end
  else if back i
  then
    let idx := selectedCharacterIndex s in
    (* Object.assign(state, createInitialState()) writes every field. *)
    Some (set_selectedCharacterIndex createInitialState idx, set_back i false)
  else Some (s, i).

Definition selectCharacter (s : GameState) (i : Z) : GameState :=
  if (0 <=? i)%Z && (i <? CHARACTERS_length)%Z
  then set_selectedCharacterIndex s i
  else s.

(** [setScreen] on a runtime: the branch ['state' in runtime]. *)
Definition setScreen (rt : GameRuntime) (v : GameScreen) : GameRuntime :=
  {| state := set_screen (state rt) v;
     input := input rt;
     spawnRateDebug := spawnRateDebug rt |}.

(** [pickItemType] may write [lastBombTime] and draws from [Math.random()]
    only where the source evaluates the call: the hazard draw is skipped
    when [bombChance] is not positive ([&&] short-circuits). *)
Definition pickItemType (s : GameState) (g : Rng)
  : option ItemTypeConfig * GameState * Rng :=
  let idx := selectedCharacterIndex s in
  let '(baseId, rareId) :=
    if (idx =? 1)%Z then ("itemB", Some "itemF")
    else if (idx =? 2)%Z then ("itemC", Some "itemD")
    else if (idx =? 3)%Z then ("itemG", Some "itemH")
    else ("itemA", Some "itemE") in
  let base :=
    match find (fun t => (it_id t =? baseId)%string) ITEM_TYPES with
    | Some b => Some b
    | None => index ITEM_TYPES 0
    end in
  let rare :=
    match rareId with
    | Some r => find (fun t => (it_id t =? r)%string) ITEM_TYPES
    | None => None
    end in
  let bomb :=
    find (fun t => (it_id t =? "bomb")%string && truthy (isHazard t))
         ITEM_TYPES in
  let t := elapsedTime s in
  let bombCooldown := 1.2 in
  let bombChance :=
    match bomb with
    | Some _ =>
        if geb t 5 then
          let ramp := Math_min 1 ((t - 5) / 45) in
          let c := 0.03 + ramp * (0.09 - 0.03) in
          let c := Math_min 0.09 (Math_max 0 c) in
          if xltb (xsub t (lastBombTime s)) bombCooldown then 0 else c
        else 0
    | None => 0
    end in
  let '(isBomb, g1) :=
    if gtb bombChance 0
    then let (r, g') := Math_random g in (ltb r bombChance, g')
    else (false, g) in
  if isBomb then (bomb, set_lastBombTime s (Finite t), g1)
  else
    match rare with
    | Some r =>
        let (r2, g2) := Math_random g1 in
        if ltb r2 RARE_ITEM_CHANCE then (Some r, s, g2) else (base, s, g2)
    | None => (base, s, g1)
    end.

(** The condition of the [while] loop of the spawn scheduler, for a finite
    [spawnInterval]. *)
Definition spawnCondition (spawnInterval : Q) (spawnsThisFrame : nat)
    (s : GameState) : bool :=
  geb (spawnAccumulator s) spawnInterval
  && (spawnsThisFrame <? MAX_SPAWNS_PER_FRAME)%nat.

(** One pass through the body of the [while] loop.  A missing item type
    makes [createFallingItem] throw on [type.width]. *)
Definition spawnBody (diff : Difficulty) (spawnInterval : Q)
    (s : GameState) (g : Rng) : option (GameState * Rng) :=
  let s1 := set_spawnAccumulator s (spawnAccumulator s - spawnInterval) in
  let '(ty, s2, g1) := pickItemType s1 g in
  match ty with
  | None => None
  | Some ty =>
      let (item, g2) :=
        createFallingItem ty (cfg_width GAME_CONFIG) (Some (lastSpawnX s2)) g1 in
      let item1 := {| i_rect := i_rect item;
                      vy := vy item * d_speedMultiplier diff;
                      type := type item |} in
      let s3 := set_items s2 (items s2 ++ [item1]) in
      Some (set_lastSpawnX s3 (x item1), g2)
  end.

Definition inspect {A : Type} (a : A) : { b : A | a = b } :=
  exist _ a eq_refl.

(** The [while] loop itself; it ends because [spawnsThisFrame] grows
    towards the cap. *)
Equations? spawnLoop (diff : Difficulty) (spawnInterval : Q)
    (spawnsThisFrame : nat) (s : GameState) (g : Rng)
  : option (GameState * Rng)
  by wf (MAX_SPAWNS_PER_FRAME - spawnsThisFrame)%nat lt :=
  spawnLoop diff spawnInterval spawnsThisFrame s g
    with inspect (spawnCondition spawnInterval spawnsThisFrame s) := {
    | exist _ true _ with spawnBody diff spawnInterval s g := {
        | Some (s', g') =>
            spawnLoop diff spawnInterval (S spawnsThisFrame) s' g'
        | None => None };
    | exist _ false _ => Some (s, g) }.
Proof.
  unfold spawnCondition in e.
  apply andb_prop in e. destruct e as [_ e].
  apply Nat.ltb_lt in e. unfold MAX_SPAWNS_PER_FRAME in e.
  destruct spawnsThisFrame as [|[|n]]; simpl; lia.
Qed.

Definition moveItem (item : FallingItem) (dt : Q) : FallingItem :=
  {| i_rect := {| x := x item; y := y item + vy item * dt;
                  width := width item; height := height item |};
     vy := vy item;
     type := type item |}.

Definition missEffectOf (item : FallingItem) (groundY : Q) : MissEffect :=
  {| fx_x := x item + width item / 2;
     fx_y := groundY - 5;
     radius := Math_max (width item) (height item) * 0.6;
     timer := 0.3;
     maxTimer := 0.3 |}.

(** The [for ... of state.items] loop.  [remaining] is the array of the
    survivors; a [break] returns at once, a [continue] goes on with the
    rest of the array. *)
Fixpoint itemLoop (p : Player) (dt groundY : Q) (its : list FallingItem)
    (s : GameState) (remaining : list FallingItem)
  : GameState * list FallingItem :=
  match its with
  | [] => (s, remaining)
  | item0 :: rest =>
      let item := moveItem item0 dt in
      if aabbIntersect p item then
        if truthy (isHazard (type item)) then
          (set_screen (set_lives s 0) gameOver, remaining)
        else
          itemLoop p dt groundY rest
            (set_score s (score s + scoreValue (type item))) remaining
      else if geb (y item + height item) groundY then
        if negb (truthy (isHazard (type item))) then
          let s1 := set_lives s (lives s - 1) in
          let s2 := set_missEffects s1
                      (missEffects s1 ++ [missEffectOf item groundY]) in
          if (lives s2 <=? 0)%Z
          then (set_screen s2 gameOver, remaining)
          else itemLoop p dt groundY rest s2 remaining
        else itemLoop p dt groundY rest s remaining
      else itemLoop p dt groundY rest s (remaining ++ [item])
  end.

Definition movePlayer (p : Player) (i : InputState) (dt : Q) : Player :=
  let dir := 0 in
  let dir := if left i then dir - 1 else dir in
  let dir := if right i then dir + 1 else dir in
  let x1 := x p + dir * speed p * dt in
  let x2 := Math_max 0 (Math_min (cfg_width GAME_CONFIG - width p) x1) in
  {| p_rect := {| x := x2; y := y p; width := width p; height := height p |};
     speed := speed p;
     color := color p;
     character := character p |}.

Definition ageMissEffects (fxs : list MissEffect) (dt : Q) : list MissEffect :=
  filter (fun fx => gtb (timer fx) 0)
    (map (fun fx => {| fx_x := fx_x fx; fx_y := fx_y fx; radius := radius fx;
                       timer := timer fx - dt; maxTimer := maxTimer fx |})
         fxs).

(** The spawn scheduler of [updatePlaying]: from [const spawnRate] to the
    end of the [while] loop.  With [spawnInterval = Infinity] the loop
    condition [spawnAccumulator >= spawnInterval] is false at once. *)
Definition spawnScheduler (diff : Difficulty) (s : GameState) (dt : Q)
    (g : Rng) : option (GameState * Rng) :=
  let rate := d_spawnRate diff in
  let spawnInterval := if gtb rate 0 then Some (1 / rate) else None in
  let s1 := set_spawnAccumulator s (spawnAccumulator s + dt) in
  match spawnInterval with
  | Some iv => spawnLoop diff iv 0 s1 g
  | None => Some (s1, g)
  end.

Definition updatePlaying (rt : GameRuntime) (dt : Q) (g : Rng)
  : option (GameRuntime * Rng) :=
  let s := state rt in
  match player s with
  | None => Some (rt, g)
  | Some p0 =>
      let p := movePlayer p0 (input rt) dt in
      let s0 := set_player s (Some p) in
      let s1 := set_elapsedTime s0 (elapsedTime s0 + dt) in
      let diff := getDifficulty (elapsedTime s1) in
      match spawnScheduler diff s1 dt g with
      | None => None
      | Some (s2, g1) =>
          let groundY := cfg_height GAME_CONFIG - 10 in
          let (s3, remaining) := itemLoop p dt groundY (items s2) s2 [] in
          let s4 := set_items s3 remaining in
          let s5 := set_missEffects s4 (ageMissEffects (missEffects s4) dt) in
          Some ({| state := s5;
                   input := input rt;
                   spawnRateDebug := d_spawnRate diff |}, g1)
      end
  end.

Definition update (rt : GameRuntime) (dt : Q) (g : Rng)
  : option (GameRuntime * Rng) :=
  match screen (state rt) with
  | start => Some (rt, g)
  | characterSelect =>
      match updateCharacterSelect (state rt) (input rt) dt with
      | Some (s, i) =>
          Some ({| state := s; input := i;
                   spawnRateDebug := spawnRateDebug rt |}, g)
      | None => None
      end
  | playing => updatePlaying rt dt g
  | gameOver =>
      match updateGameOver (state rt) (input rt) with
      | Some (s, i) =>
          Some ({| state := s; input := i;
                   spawnRateDebug := spawnRateDebug rt |}, g)
      | None => None
      end
  end.

End Game.

(** ** The canvas variant of the game

    The sources hold a second, earlier variant of [config.ts],
    [entities.ts], [game.ts] and [renderer.ts]: three characters, one item
    per character, a character menu drawn on the canvas and picked with the
    mouse, no start screen, no bomb, no miss effects and no cap on the
    spawns of a frame.  [getDifficulty] and [aabbIntersect] are the same
    functions as in the menu-driven variant and are taken from there. *)

Module Classic.

(** The item types have no [isHazard] field here: it is [None]. *)
Definition classicItem (name path : string) (size : Q) : ItemTypeConfig := {|
  it_id := name;
  it_spritePath := Some path;
  scoreValue := 1;
  spawnWeight := 1;
  it_width := Some size;
  it_height := Some size;
  baseFallSpeed := 80;
  isHazard := None
|}.

Definition ITEM_TYPES : list ItemTypeConfig := [
  classicItem "itemA" "/assets/items/itemA.png" 50;
  classicItem "itemB" "/assets/items/itemB.png" 70;
  classicItem "itemC" "/assets/items/itemC.png" 50
].

Definition CHARACTERS : list CharacterConfig := [
  {| ch_id := "playerA"; ch_name := "Wiebke";
     ch_spritePath := Some "/assets/players/playerA.png"; ch_color := "#4fd1c5" |};
  {| ch_id := "playerB"; ch_name := "Kathi";
     ch_spritePath := Some "/assets/players/playerB.png"; ch_color := "#fbd38d" |};
  {| ch_id := "playerC"; ch_name := "Anne";
     ch_spritePath := Some "/assets/players/playerC.png"; ch_color := "#f687b3" |}
].

Definition CHARACTERS_length : Z := Z.of_nat (List.length CHARACTERS).

Inductive GameStateType : Type :=
| character_select
| playing
| game_over.

Record GameState : Type := {
  type : GameStateType;
  player : option Player;
  selectedCharacterIndex : Z;
  score : Z;
  lives : Z;
  elapsedTime : Q;
  spawnAccumulator : Q;
  items : list FallingItem
}.

Definition createPlayer (c : CharacterConfig) (canvasWidth canvasHeight : Q)
  : Player :=
  let w := 70 in
  let h := 120 in
  {| p_rect := {| x := canvasWidth / 2 - w / 2;
                  y := canvasHeight - h - 4;
                  width := w;
                  height := h |};
     speed := 250;
     color := ch_color c;
     character := c |}.

Definition createFallingItem (ty : ItemTypeConfig) (canvasWidth : Q) (g : Rng)
  : FallingItem * Rng :=
  let w := nullish (it_width ty) 12 in
  let h := nullish (it_height ty) 12 in
  let (r, g1) := Math_random g in
  let x0 := r * (canvasWidth - w) in
  ({| i_rect := {| x := x0; y := - h; width := w; height := h |};
      vy := baseFallSpeed ty;
      Entities.type := ty |}, g1).

(** *** renderer.ts *)

Record CharacterSlot : Type := {
  slot_x : Q;
  slot_y : Q;
  slot_width : Q;
  slot_height : Q
}.

(** The [for] loop of [getCharacterSlots], from index [i] on, for [n] more
    slots. *)
Fixpoint slotsFrom (startX centerY : Q) (i : nat) (n : nat)
  : list CharacterSlot :=
  match n with
  | O => []
  | S n' =>
      {| slot_x := startX + inject_Z (Z.of_nat i) * (160 + 16);
         slot_y := centerY - 210 / 2;
         slot_width := 160;
         slot_height := 210 |} :: slotsFrom startX centerY (S i) n'
  end.

Definition getCharacterSlots (canvasWidth canvasHeight : Q)
  : list CharacterSlot :=
  let slotWidth := 160 in
  let gap := 16 in
  let n := inject_Z CHARACTERS_length in
  let totalWidth := n * slotWidth + (n - 1) * gap in
  let startX := (canvasWidth - totalWidth) / 2 in
  let centerY := canvasHeight / 2 in
  slotsFrom startX centerY 0 (List.length CHARACTERS).

(** *** game.ts *)

Definition createInitialState : GameState :=
  {| type := character_select;
     player := None;
     selectedCharacterIndex := 0;
     score := 0;
     lives := initialLives GAME_CONFIG;
     elapsedTime := 0;
     spawnAccumulator := 0;
     items := [] |}.

Definition set_index (s : GameState) (v : Z) : GameState :=
  {| type := type s; player := player s; selectedCharacterIndex := v;
     score := score s; lives := lives s; elapsedTime := elapsedTime s;
     spawnAccumulator := spawnAccumulator s; items := items s |}.

(** As in the menu-driven variant, [createPlayer] throws for an index
    outside the catalog, before any field is written. *)
Definition beginPlay (s : GameState) : option GameState :=
  match index CHARACTERS (selectedCharacterIndex s) with
  | None => None
  | Some character =>
      Some {| type := playing;
              player := Some (createPlayer character (cfg_width GAME_CONFIG)
                                           (cfg_height GAME_CONFIG));
              selectedCharacterIndex := selectedCharacterIndex s;
              score := 0;
              lives := initialLives GAME_CONFIG;
              elapsedTime := 0;
              spawnAccumulator := 0;
              items := [] |}
  end.

Definition updateCharacterSelect (s : GameState) (i : InputState) (_dt : Q)
  : option (GameState * InputState) :=
  let (s1, i1) :=
    if left i
    then (set_index s
            (Z.rem (selectedCharacterIndex s - 1 + CHARACTERS_length)
                   CHARACTERS_length),
          set_left i false)
    else (s, i) in
  let (s2, i2) :=
    if right i1
    then (set_index s1
            (Z.rem (selectedCharacterIndex s1 + 1) CHARACTERS_length),
          set_right i1 false)
    else (s1, i1) in
  if confirm i2
  then match beginPlay s2 with
       | Some s3 => Some (s3, set_confirm i2 false)
       | None => None
       end
  else Some (s2, i2).

Definition updateGameOver (s : GameState) (i : InputState)
  : option (GameState * InputState) :=
  if restart i
  then match beginPlay s with
       | Some s1 => Some (s1, set_restart i false)
       | None => None
       end
  else if back i
  then Some (set_index createInitialState (selectedCharacterIndex s),
             set_back i false)
  else Some (s, i).

(** [ITEM_TYPES[k]] is [undefined] outside the catalog. *)
Definition pickItemType (s : GameState) : option ItemTypeConfig :=
  let idx := selectedCharacterIndex s in
  if (idx =? 0)%Z then index ITEM_TYPES 0
  else if (idx =? 1)%Z && (1 <? Z.of_nat (List.length ITEM_TYPES))%Z
  then index ITEM_TYPES 1
  else if (idx =? 2)%Z && (2 <? Z.of_nat (List.length ITEM_TYPES))%Z
  then index ITEM_TYPES 2
  else index ITEM_TYPES 0.

(** One pass through the body of the [while] loop of the spawns. *)
Definition spawnBody (diff : Difficulty) (spawnInterval : Q)
    (s : GameState) (g : Rng) : option (GameState * Rng) :=
  let acc := spawnAccumulator s - spawnInterval in
  match pickItemType s with
  | None => None
  | Some ty =>
      let (item, g1) := createFallingItem ty (cfg_width GAME_CONFIG) g in
      let item1 := {| i_rect := i_rect item;
                      vy := vy item * d_speedMultiplier diff;
                      Entities.type := Entities.type item |} in
      Some ({| type := type s; player := player s;
               selectedCharacterIndex := selectedCharacterIndex s;
               score := score s; lives := lives s;
               elapsedTime := elapsedTime s;
               spawnAccumulator := acc;
               items := items s ++ [item1] |}, g1)
  end.

(** How many intervals fit into the accumulator: the number of passes the
    loop still has to make. *)
Definition passesLeft (spawnInterval : Q) (s : GameState) : nat :=
  Z.to_nat (Qfloor (spawnAccumulator s / spawnInterval)).

Definition inspect {A : Type} (a : A) : { b : A | a = b } :=
  exist _ a eq_refl.

(** The [while] loop of the spawns, [while (spawnAccumulator >=
    spawnInterval)], for a finite and positive interval; it has no cap and
    ends because every pass takes one interval off the accumulator.  That
    is so in exact arithmetic; the loop on doubles is
    [ClassicBinary64.spawnLoop]. *)
Equations? spawnLoop (diff : Difficulty) (spawnInterval : Q)
    (positive : 0 < spawnInterval) (s : GameState) (g : Rng)
  : option (GameState * Rng)
  by wf (passesLeft spawnInterval s) lt :=
  spawnLoop diff spawnInterval positive s g
    with inspect (geb (spawnAccumulator s) spawnInterval) := {
    | exist _ true _ with inspect (spawnBody diff spawnInterval s g) := {
        | exist _ (Some (s', g')) _ =>
            spawnLoop diff spawnInterval positive s' g'
        | exist _ None _ => None };
    | exist _ false _ => Some (s, g) }.
Proof.
  unfold geb in e. apply Qle_bool_iff in e.
  unfold spawnBody in e0.
  destruct (pickItemType s); [|discriminate e0].
  destruct (createFallingItem i (cfg_width GAME_CONFIG) g).
  injection e0 as <- _. unfold passesLeft. cbn [spawnAccumulator].
  set (acc := spawnAccumulator s) in *. set (iv := spawnInterval) in *.
  assert (E : (acc - iv) / iv == acc / iv - 1) by (field; lra).
  assert (H1 : 1 <= acc / iv) by (apply Qle_shift_div_l; lra).
  rewrite (Qfloor_comp _ _ E).
  pose proof (Qfloor_le (acc / iv - 1)) as Hlo.
  pose proof (Qlt_floor (acc / iv)) as Hhi.
  assert (Hlt : (Qfloor (acc / iv - 1) < Qfloor (acc / iv))%Z).
  { rewrite Zlt_Qlt. rewrite inject_Z_plus in Hhi.
    change (inject_Z 1) with 1 in Hhi. lra. }
  assert (H0 : (0 <= Qfloor (acc / iv - 1))%Z).
  { change 0%Z with (Qfloor 0). apply Qfloor_resp_le. lra. }
  lia.
Qed.

Definition set_accumulator (s : GameState) (v : Q) : GameState :=
  {| type := type s; player := player s;
     selectedCharacterIndex := selectedCharacterIndex s;
     score := score s; lives := lives s; elapsedTime := elapsedTime s;
     spawnAccumulator := v; items := items s |}.

(** The spawns of [updatePlaying]: from [const spawnRate] to the end of
    the [while] loop.  With [spawnInterval = Infinity] the loop does not
    run. *)
Equations? spawnScheduler (diff : Difficulty) (s : GameState) (dt : Q)
    (g : Rng) : option (GameState * Rng) :=
  spawnScheduler diff s dt g with inspect (gtb (d_spawnRate diff) 0) := {
    | exist _ true _ =>
        spawnLoop diff (1 / d_spawnRate diff) _
          (set_accumulator s (spawnAccumulator s + dt)) g
    | exist _ false _ =>
        Some (set_accumulator s (spawnAccumulator s + dt), g) }.
Proof.
  unfold gtb, ltb in e. apply negb_true_iff in e.
  assert (H : 0 < d_spawnRate diff).
  { apply Qnot_le_lt. intro L. apply Qle_bool_iff in L. congruence. }
  apply Qlt_shift_div_l; lra.
Qed.

(** The [for ... of state.items] loop: every item that reaches the ground
    costs a life. *)
Fixpoint itemLoop (p : Player) (dt groundY : Q) (its : list FallingItem)
    (s : GameState) (remaining : list FallingItem)
  : GameState * list FallingItem :=
  match its with
  | [] => (s, remaining)
  | item0 :: rest =>
      let item := Game.moveItem item0 dt in
      if aabbIntersect p item then
        itemLoop p dt groundY rest
          {| type := type s; player := player s;
             selectedCharacterIndex := selectedCharacterIndex s;
             score := score s + scoreValue (Entities.type item);
             lives := lives s; elapsedTime := elapsedTime s;
             spawnAccumulator := spawnAccumulator s; items := items s |}
          remaining
      else if geb (y item + height item) groundY then
        let s1 := {| type := type s; player := player s;
                     selectedCharacterIndex := selectedCharacterIndex s;
                     score := score s; lives := lives s - 1;
                     elapsedTime := elapsedTime s;
                     spawnAccumulator := spawnAccumulator s;
                     items := items s |} in
        if (lives s1 <=? 0)%Z
        then ({| type := game_over; player := player s1;
                 selectedCharacterIndex := selectedCharacterIndex s1;
                 score := score s1; lives := lives s1;
                 elapsedTime := elapsedTime s1;
                 spawnAccumulator := spawnAccumulator s1;
                 items := items s1 |}, remaining)
        else itemLoop p dt groundY rest s1 remaining
      else itemLoop p dt groundY rest s (remaining ++ [item])
  end.

Record GameRuntime : Type := {
  state : GameState;
  input : InputState;
  spawnRateDebug : Q
}.

(** The movement of the player is the code of the menu-driven variant,
    [Game.movePlayer]. *)
Definition updatePlaying (rt : GameRuntime) (dt : Q) (g : Rng)
  : option (GameRuntime * Rng) :=
  let s := state rt in
  match player s with
  | None => Some (rt, g)
  | Some p0 =>
      let p := Game.movePlayer p0 (input rt) dt in
      let s1 := {| type := type s; player := Some p;
                   selectedCharacterIndex := selectedCharacterIndex s;
                   score := score s; lives := lives s;
                   elapsedTime := elapsedTime s + dt;
                   spawnAccumulator := spawnAccumulator s;
                   items := items s |} in
      let diff := getDifficulty (elapsedTime s1) in
      match spawnScheduler diff s1 dt g with
      | None => None
      | Some (s2, g1) =>
          let groundY := cfg_height GAME_CONFIG - 10 in
          let (s3, remaining) := itemLoop p dt groundY (items s2) s2 [] in
          Some ({| state :=
                     {| type := type s3; player := player s3;
                        selectedCharacterIndex := selectedCharacterIndex s3;
                        score := score s3; lives := lives s3;
                        elapsedTime := elapsedTime s3;
                        spawnAccumulator := spawnAccumulator s3;
                        items := remaining |};
                   input := input rt;
                   spawnRateDebug := d_spawnRate diff |}, g1)
      end
  end.

Definition update (rt : GameRuntime) (dt : Q) (g : Rng)
  : option (GameRuntime * Rng) :=
  match type (state rt) with
  | character_select =>
      match updateCharacterSelect (state rt) (input rt) dt with
      | Some (s, i) =>
          Some ({| state := s; input := i;
                   spawnRateDebug := spawnRateDebug rt |}, g)
      | None => None
      end
  | playing => updatePlaying rt dt g
  | game_over =>
      match updateGameOver (state rt) (input rt) with
      | Some (s, i) =>
          Some ({| state := s; input := i;
                   spawnRateDebug := spawnRateDebug rt |}, g)
      | None => None
      end
  end.

(** The [for] loop of [handleClick] over the slots, from slot [i] on. *)
Fixpoint clickLoop (slots : list CharacterSlot) (i : Z) (cx cy : Q)
    (s : GameState) : option GameState :=
  match slots with
  | [] => Some s
  | sl :: rest =>
      if geb cx (slot_x sl) && leb cx (slot_x sl + slot_width sl)
         && geb cy (slot_y sl) && leb cy (slot_y sl + slot_height sl)
      then beginPlay (set_index s i)
      else clickLoop rest (i + 1) cx cy s
  end.

(** [handleClick] of [setupMouseForCharacterSelect], from the point
    [(x, y)] in field coordinates on; the conversion of the client
    coordinates of the mouse event is left out. *)
Definition handleClick (s : GameState) (cx cy : Q) : option GameState :=
  match type s with
  | character_select =>
      clickLoop (getCharacterSlots (cfg_width GAME_CONFIG)
                                   (cfg_height GAME_CONFIG)) 0 cx cy s
  | _ => Some s
  end.

Inductive Event : Type :=
| Frame (dt : Q) (g : Rng)
| KeyDown (code : string)
| KeyUp (code : string)
| Click (cx cy : Q).

Definition handle (rt : GameRuntime) (e : Event) : option GameRuntime :=
  match e with
  | Frame dt g => option_map fst (update rt dt g)
  | KeyDown code =>
      Some {| state := state rt; input := keyDown code (input rt);
              spawnRateDebug := spawnRateDebug rt |}
  | KeyUp code =>
      Some {| state := state rt; input := keyUp code (input rt);
              spawnRateDebug := spawnRateDebug rt |}
  | Click cx cy =>
      option_map (fun s => {| state := s; input := input rt;
                              spawnRateDebug := spawnRateDebug rt |})
                 (handleClick (state rt) cx cy)
  end.

Definition initialRuntime : GameRuntime :=
  {| state := createInitialState;
     input := createInputState;
     spawnRateDebug := 0 |}.

Fixpoint run (rt : GameRuntime) (es : list Event) : option GameRuntime :=
  match es with
  | [] => Some rt
  | e :: rest =>
      match handle rt e with
      | Some rt' => run rt' rest
      | None => None
      end
  end.

Inductive reachable : GameRuntime -> Prop :=
| reachable_initial : reachable initialRuntime
| reachable_event (rt rt' : GameRuntime) (e : Event) :
    reachable rt -> handle rt e = Some rt' -> reachable rt'.

End Classic.

(** ** The spawns of the canvas variant, over binary64

    The spawn code of [updatePlaying] of the canvas variant once more, with
    the numbers as the IEEE doubles that JavaScript computes with.  Over
    doubles a pass of the [while] loop need not lower the accumulator, so
    the loop is given for a bounded number of passes and says when the
    bound was hit. *)

Module ClassicBinary64.

Local Open Scope float_scope.

Record ItemTypeConfig : Type := {
  it_id : string;
  it_spritePath : option string;
  scoreValue : float;
  spawnWeight : float;
  it_width : option float;
  it_height : option float;
  baseFallSpeed : float
}.

Definition classicItem (name path : string) (size : float) : ItemTypeConfig := {|
  it_id := name;
  it_spritePath := Some path;
  scoreValue := 1;
  spawnWeight := 1;
  it_width := Some size;
  it_height := Some size;
  baseFallSpeed := 80
|}.

Definition ITEM_TYPES : list ItemTypeConfig := [
  classicItem "itemA" "/assets/items/itemA.png" 50;
  classicItem "itemB" "/assets/items/itemB.png" 70;
  classicItem "itemC" "/assets/items/itemC.png" 50
].

(** [GAME_CONFIG.width]. *)
Definition cfg_width : float := 700.

Record FallingItem : Type := {
  x : float;
  y : float;
  width : float;
  height : float;
  vy : float;
  type : ItemTypeConfig
}.

(** The fields of the session state that the spawn code reads or writes. *)
Record GameState : Type := {
  selectedCharacterIndex : Z;
  spawnAccumulator : float;
  items : list FallingItem
}.

Record Rng : Type := mkRng { draws : nat -> float; cursor : nat }.

Definition Math_random (g : Rng) : float * Rng :=
  (draws g (cursor g), mkRng (draws g) (S (cursor g))).

Definition createFallingItem (ty : ItemTypeConfig) (canvasWidth : float)
    (g : Rng) : FallingItem * Rng :=
  let w := nullish (it_width ty) 12 in
  let h := nullish (it_height ty) 12 in
  let (r, g1) := Math_random g in
  let x0 := r * (canvasWidth - w) in
  ({| x := x0; y := - h; width := w; height := h;
      vy := baseFallSpeed ty; type := ty |}, g1).

Definition pickItemType (s : GameState) : option ItemTypeConfig :=
  let idx := selectedCharacterIndex s in
  if (idx =? 0)%Z then index ITEM_TYPES 0
  else if (idx =? 1)%Z && (1 <? Z.of_nat (List.length ITEM_TYPES))%Z
  then index ITEM_TYPES 1
  else if (idx =? 2)%Z && (2 <? Z.of_nat (List.length ITEM_TYPES))%Z
  then index ITEM_TYPES 2
  else index ITEM_TYPES 0.

(** One pass through the body of the [while] loop; [diff] is the pair
    [(spawnRate, speedMultiplier)] of [Binary64.getDifficulty]. *)
Definition spawnBody (diff : float * float) (spawnInterval : float)
    (s : GameState) (g : Rng) : option (GameState * Rng) :=
  let acc := spawnAccumulator s - spawnInterval in
  match pickItemType s with
  | None => None
  | Some ty =>
      let (item, g1) := createFallingItem ty cfg_width g in
      let item1 := {| x := x item; y := y item; width := width item;
                      height := height item;
                      vy := vy item * snd diff;
                      type := type item |} in
      Some ({| selectedCharacterIndex := selectedCharacterIndex s;
               spawnAccumulator := acc;
               items := items s ++ [item1] |}, g1)
  end.

(** How a run of the loop ends: it returns, it throws, or it is still
    running after the passes it was given. *)
Inductive Outcome : Type :=
| Returns (s : GameState) (g : Rng)
| Throws
| Running.

(** [while (state.spawnAccumulator >= spawnInterval) { ... }], for at most
    [passes] passes. *)
Fixpoint spawnLoop (passes : nat) (diff : float * float)
    (spawnInterval : float) (s : GameState) (g : Rng) : Outcome :=
  if spawnInterval <=? spawnAccumulator s then
    match passes with
    | O => Running
    | S passes' =>
        match spawnBody diff spawnInterval s g with
        | Some (s', g') => spawnLoop passes' diff spawnInterval s' g'
        | None => Throws
        end
    end
  else Returns s g.

(** The spawns of [updatePlaying]: from [const spawnRate] to the end of
    the [while] loop. *)
Definition spawnScheduler (passes : nat) (diff : float * float)
    (s : GameState) (dt : float) (g : Rng) : Outcome :=
  let spawnRate := fst diff in
  let spawnInterval := if 0 <? spawnRate then 1 / spawnRate else infinity in
  spawnLoop passes diff spawnInterval
    {| selectedCharacterIndex := selectedCharacterIndex s;
       spawnAccumulator := spawnAccumulator s + dt;
       items := items s |} g.

End ClassicBinary64.

(** ** assets.ts

    The cache of sprite images.  An [HTMLImageElement] is known by the path
    it loads from; [imageCache] is the list of its entries in the order of
    insertion, with one entry per key.  The [onerror] handler of an image
    is an operation of its own, run when the browser reports the failure. *)

Module Assets.

Record LoadedImage : Type := {
  img : option string;
  path : option string
}.

Definition ImageCache : Type := list (string * LoadedImage).

(** [imageCache.get(path)]. *)
Fixpoint cacheGet (p : string) (c : ImageCache) : option LoadedImage :=
  match c with
  | [] => None
  | (k, r) :: rest => if (k =? p)%string then Some r else cacheGet p rest
  end.

(** [imageCache.set(path, record)]. *)
Fixpoint cacheSet (p : string) (r : LoadedImage) (c : ImageCache) : ImageCache :=
  match c with
  | [] => [(p, r)]
  | (k, r0) :: rest =>
      if (k =? p)%string then (k, r) :: rest else (k, r0) :: cacheSet p r rest
  end.

(** [!path] holds for [null] and for the empty string. *)
Definition getCachedImage (p : option string) (c : ImageCache)
  : LoadedImage * ImageCache :=
  match p with
  | None => ({| img := None; path := None |}, c)
  | Some "" => ({| img := None; path := None |}, c)
  | Some p' =>
      match cacheGet p' c with
      | Some cached => (cached, c)
      | None =>
          let record := {| img := Some p'; path := Some p' |} in
          (record, cacheSet p' record c)
      end
  end.

(** [img.onerror] of the image made for [p]: it writes [record.img = null]
    into the record, which is the one in the cache. *)
Definition onerror (p : string) (c : ImageCache) : ImageCache :=
  map (fun e => if (fst e =? p)%string
                then (fst e, {| img := None; path := path (snd e) |})
                else e) c.

End Assets.

Import Game.

(** * Sessions, sample states and vocabulary of the properties *)

(** Two rectangles whose only contact is the edge [a.x + a.width = b.x],
    with overlapping vertical ranges. *)
Definition touchingEdge (a b : Rect) : Prop :=
  x a + width a == x b /\ y a < y b + height b /\ y b < y a + height a.

Definition rectA : Rect := {| x := 0; y := 0; width := 10; height := 10 |}.
Definition rectB : Rect := {| x := 10; y := 0; width := 10; height := 10 |}.

(** The index selects an entry of the character catalog. *)
Definition indexInRange (s : GameState) : Prop :=
  (0 <= selectedCharacterIndex s < CHARACTERS_length)%Z.

(** A round in full swing: the third character, score 7, one life left,
    an item in flight, a miss effect on screen, a bomb spawned at 40s. *)
Definition midRound : GameState :=
  {| screen := playing;
     player := Some (createPlayer
                       {| ch_id := "playerC"; ch_name := "Anne";
                          ch_spritePath := Some "/assets/players/playerC.png";
                          ch_color := "#f687b3" |} 700 500);
     selectedCharacterIndex := 2;
     score := 7;
     lives := 1;
     elapsedTime := 42.5;
     spawnAccumulator := 0.3;
     items := [ {| i_rect := {| x := 100; y := 200; width := 32; height := 32 |};
                   vy := 85;
                   type := bombItem |} ];
     missEffects := [ {| fx_x := 60; fx_y := 485; radius := 19.2;
                         timer := 0.1; maxTimer := 0.3 |} ];
     lastBombTime := Finite 40;
     lastSpawnX := 100 |}.

(** The session after the round [midRound] was lost. *)
Definition lostRound : GameState := set_screen (set_lives midRound 0) gameOver.

Definition backPressed : InputState := keyDown "Escape" createInputState.

(** The fields of the session that the spawn scheduler never writes. *)
Definition sameRound (s s' : GameState) : Prop :=
  screen s' = screen s
  /\ player s' = player s
  /\ selectedCharacterIndex s' = selectedCharacterIndex s
  /\ score s' = score s
  /\ lives s' = lives s
  /\ elapsedTime s' = elapsedTime s
  /\ missEffects s' = missEffects s.

(** A session 20s into a round, 0.5s after a bomb was spawned; the draws are
    all 0, the value most favourable to the bomb. *)
Definition afterBomb : GameState :=
  set_lastBombTime (set_elapsedTime midRound 20) (Finite 19.5).

Definition zeroDraws : Rng := mkRng (fun _ => 0) 0.

(** The tail of [updatePlaying], after the item loop. *)
Definition finishFrame (r : GameState * list FallingItem) (dt : Q) : GameState :=
  set_missEffects (set_items (fst r) (snd r))
    (ageMissEffects (missEffects (fst r)) dt).

Definition groundLine : Q := cfg_height GAME_CONFIG - 10.

(** What [startGame] wires to the runtime: the frame loop calls [update],
    the key listeners write the input flags, and the buttons of the menu
    call the actions of [initUI]. *)
Inductive Event : Type :=
| Frame (dt : Q) (g : Rng)
| KeyDown (code : string)
| KeyUp (code : string)
| OnStart
| OnSelectCharacter (i : Z)
| OnStartGame
| OnRestart
| OnBackToCharacterSelect.

Definition withState (rt : GameRuntime) (s : GameState) : GameRuntime :=
  {| state := s; input := input rt; spawnRateDebug := spawnRateDebug rt |}.

Definition withInput (rt : GameRuntime) (i : InputState) : GameRuntime :=
  {| state := state rt; input := i; spawnRateDebug := spawnRateDebug rt |}.

Definition handle (rt : GameRuntime) (e : Event) : option GameRuntime :=
  match e with
  | Frame dt g => option_map fst (update rt dt g)
  | KeyDown code => Some (withInput rt (keyDown code (input rt)))
  | KeyUp code => Some (withInput rt (keyUp code (input rt)))
  | OnStart => Some (setScreen rt characterSelect)
  | OnSelectCharacter i => Some (withState rt (selectCharacter (state rt) i))
  | OnStartGame => option_map (withState rt) (beginPlay (state rt))
  | OnRestart => option_map (withState rt) (beginPlay (state rt))
  | OnBackToCharacterSelect => Some (setScreen rt characterSelect)
  end.

Definition initialRuntime : GameRuntime :=
  {| state := createInitialState;
     input := createInputState;
     spawnRateDebug := 0 |}.

Fixpoint run (rt : GameRuntime) (es : list Event) : option GameRuntime :=
  match es with
  | [] => Some rt
  | e :: rest =>
      match handle rt e with
      | Some rt' => run rt' rest
      | None => None
      end
  end.

(** The runtimes that a session can be in. *)
Inductive reachable : GameRuntime -> Prop :=
| reachable_initial : reachable initialRuntime
| reachable_event (rt rt' : GameRuntime) (e : Event) :
    reachable rt -> handle rt e = Some rt' -> reachable rt'.

(** What every reachable session satisfies. *)
Definition sessionInv (s : GameState) : Prop :=
  indexInRange s
  /\ (0 <= lives s)%Z
  /\ (screen s = playing -> (0 < lives s)%Z).

(** Three lives, and three items in flight: one high up, a bomb on the
    player, one about to reach the ground. *)
Definition hazardRound : GameRuntime :=
  {| state :=
       set_items (set_lives midRound 3)
         [ {| i_rect := {| x := 50; y := 0; width := 32; height := 32 |};
              vy := 80; type := plainItem "itemC" "/assets/items/itemC.png" 1 |};
           {| i_rect := {| x := 330; y := 380; width := 32; height := 32 |};
              vy := 85; type := bombItem |};
           {| i_rect := {| x := 600; y := 458; width := 32; height := 32 |};
              vy := 80; type := plainItem "itemC" "/assets/items/itemC.png" 1 |} ];
     input := createInputState;
     spawnRateDebug := 0 |}.

(** Cycling in the character menu: one step down for [left], one step up
    for [right], both modulo the size of the catalog. *)
Definition cycled (i : InputState) (idx : Z) : Z :=
  let idx1 := if left i then ((idx - 1) mod CHARACTERS_length)%Z else idx in
  if right i then ((idx1 + 1) mod CHARACTERS_length)%Z else idx1.

Definition halfDraws : Rng := mkRng (fun _ => 0.5) 0.

(** A session that went through the menu and lost two lives in a first,
    long frame. *)
Definition lateRound : GameRuntime :=
  nullish (run initialRuntime [OnStart; OnStartGame; Frame 10 halfDraws])
          initialRuntime.

(** The rational number that a finite double stands for. *)
Definition valueOf (f : float) : option Q :=
  match Prim2SF f with
  | S754_zero _ => Some 0
  | S754_finite s m e =>
      Some (inject_Z (if s then Z.neg m else Z.pos m) * 2 ^ e)
  | _ => None
  end.

(** ** Vocabulary of the further properties *)

Definition hazardCount (l : list FallingItem) : nat :=
  List.length (filter (fun it => truthy (isHazard (type it))) l).

(** An item as the scheduler makes it: of a catalogued type, with the
    size of that type. *)
Definition fromCatalog (it : FallingItem) : Prop :=
  In (type it) ITEM_TYPES
  /\ width it = nullish (it_width (type it)) 12
  /\ height it = nullish (it_height (type it)) 12.

Definition cooldownOver (s : GameState) : Prop :=
  match lastBombTime s with
  | NegInfinity => True
  | Finite l => 1.2 <= elapsedTime s - l
  | Infinity => False
  end.

Definition cooldownOn (s : GameState) : Prop :=
  lastBombTime s = Finite (elapsedTime s).

(** An item that is neither on the ground nor on the player. *)
Definition inFlight (p : Player) (groundY : Q) (it : FallingItem) : Prop :=
  y it + height it < groundY /\ aabbIntersect p it = false.

(** A player of the size that [createPlayer] gives, standing on its line
    and inside the field. *)
Definition playerInField (p : Player) : Prop :=
  0 <= x p <= cfg_width GAME_CONFIG - width p
  /\ y p + height p == cfg_height GAME_CONFIG - 4
  /\ width p == 50
  /\ height p == 100
  /\ speed p == 300
  /\ In (character p) CHARACTERS.

Definition wellFormed (s : GameState) : Prop :=
  (screen s = playing -> player s <> None)
  /\ (forall p, player s = Some p -> playerInField p)
  /\ Forall fromCatalog (items s)
  /\ (0 <= score s)%Z.

(** The events of the keyboard and of the frame loop: no button of the
    menu. *)
Definition noMenuAction (e : Event) : bool :=
  match e with
  | Frame _ _ | KeyDown _ | KeyUp _ => true
  | _ => false
  end.

(** A natural number as a JavaScript number. *)
Definition ofNat (n : nat) : Q := inject_Z (Z.of_nat n).

Definition leftPressed : InputState := keyDown "ArrowLeft" createInputState.
Definition rightPressed : InputState := keyDown "ArrowRight" createInputState.
Definition bothPressed : InputState := keyDown "ArrowRight" leftPressed.

(** [n] frames of the character menu, each with the key pressed anew. *)
Fixpoint pressTimes (n : nat) (i : InputState) (s : GameState)
  : option GameState :=
  match n with
  | O => Some s
  | S n' =>
      match updateCharacterSelect s i 0.016 with
      | Some (s', _) => pressTimes n' i s'
      | None => None
      end
  end.

(** The codes that the listeners know. *)
Definition boundCodes : list string :=
  ["ArrowLeft"; "KeyA"; "ArrowRight"; "KeyD"; "Enter"; "Space"; "KeyR";
   "Escape"; "Backspace"].


(** The point [(cx, cy)] lies in the slot, borders included. *)
Definition inSlot (sl : Classic.CharacterSlot) (cx cy : Q) : Prop :=
  Classic.slot_x sl <= cx <= Classic.slot_x sl + Classic.slot_width sl
  /\ Classic.slot_y sl <= cy <= Classic.slot_y sl + Classic.slot_height sl.

Definition fieldSlots : list Classic.CharacterSlot :=
  Classic.getCharacterSlots (cfg_width GAME_CONFIG) (cfg_height GAME_CONFIG).


(** The player of [midRound] and [hazardRound]. *)
Definition samplePlayer : Player :=
  createPlayer {| ch_id := "playerC"; ch_name := "Anne";
                  ch_spritePath := Some "/assets/players/playerC.png";
                  ch_color := "#f687b3" |} 700 500.

(** Keys and frames, and no click on the menu. *)
Definition keysAndFrames : list Event :=
  [KeyDown "Enter"; Frame 0.016 zeroDraws; KeyUp "Enter";
   KeyDown "ArrowLeft"; Frame 0.016 zeroDraws;
   KeyDown "Escape"; Frame 0.016 halfDraws].

(** A lost round of the canvas variant. *)
Definition classicLost : Classic.GameState :=
  {| Classic.type := Classic.game_over;
     Classic.player := Some (Classic.createPlayer
                               {| ch_id := "playerB"; ch_name := "Kathi";
                                  ch_spritePath := Some "/assets/players/playerB.png";
                                  ch_color := "#fbd38d" |} 700 500);
     Classic.selectedCharacterIndex := 1;
     Classic.score := 12;
     Classic.lives := 0;
     Classic.elapsedTime := 33;
     Classic.spawnAccumulator := 0.2;
     Classic.items := [] |}.

(** The canvas variant after a click on the second slot and one second of
    play. *)
Definition classicPicked : Classic.GameRuntime :=
  nullish (Classic.run Classic.initialRuntime
             [Classic.Click 300 250; Classic.Frame 1 halfDraws])
          Classic.initialRuntime.

Definition bombPath : string := "/assets/items/bomb.png".

(** The cache after the first lookup of [bombPath]. *)
Definition bombCached : Assets.ImageCache :=
  snd (Assets.getCachedImage (Some bombPath) []).

(** A round of the canvas variant whose accumulator is so large that a
    spawn interval is below the spacing of the doubles around it. *)
Definition hugeBacklog : ClassicBinary64.GameState :=
  {| ClassicBinary64.selectedCharacterIndex := 1;
     ClassicBinary64.spawnAccumulator := 1e17;
     ClassicBinary64.items := [] |}.

(** A round of the canvas variant with nothing accumulated. *)
Definition noBacklog : ClassicBinary64.GameState :=
  {| ClassicBinary64.selectedCharacterIndex := 1;
     ClassicBinary64.spawnAccumulator := 0;
     ClassicBinary64.items := [] |}.

Definition halfDraws64 : ClassicBinary64.Rng :=
  ClassicBinary64.mkRng (fun _ => 0.5%float) 0.

(** * Properties *)

(** ** Comparisons of numbers *)

Lemma Qle_bool_false (a b : Q) : Qle_bool a b = false <-> b < a.
Proof.
  split; intro H.
  - apply Qnot_le_lt. intro L. apply Qle_bool_iff in L. congruence.
  - destruct (Qle_bool a b) eqn:E; [|reflexivity].
    apply Qle_bool_iff in E. lra.
Qed.

Lemma ltb_true (a b : Q) : ltb a b = true <-> a < b.
Proof.
  unfold ltb. rewrite negb_true_iff. apply Qle_bool_false.
Qed.

Lemma ltb_false (a b : Q) : ltb a b = false <-> b <= a.
Proof.
  unfold ltb. rewrite negb_false_iff. apply Qle_bool_iff.
Qed.

(** Splits on every comparison of the goal and closes the branches that
    contradict the hypotheses. *)
Ltac qcases :=
  repeat (match goal with
          | |- context [Qle_bool ?a ?b] =>
              let E := fresh "E" in
              destruct (Qle_bool a b) eqn:E; rewrite ?E in *;
              [apply Qle_bool_iff in E | apply Qle_bool_false in E]
          | H : context [Qle_bool ?a ?b] |- _ =>
              let E := fresh "E" in
              destruct (Qle_bool a b) eqn:E; rewrite ?E in *;
              [apply Qle_bool_iff in E | apply Qle_bool_false in E]
          end; simpl in *; try (exfalso; lra)).

(** ** Collision test *)

(** The overlap test is the closed one: it fails only if one rectangle
    lies strictly beyond an edge of the other. *)
Lemma aabbIntersect_true_iff (a b : Rect) :
  aabbIntersect a b = true <->
  x b <= x a + width a /\ x a <= x b + width b /\
  y b <= y a + height a /\ y a <= y b + height b.
Proof.
  unfold aabbIntersect, gtb.
  rewrite negb_true_iff, !orb_false_iff, !ltb_false. tauto.
Qed.

Lemma aabbIntersect_false_iff (a b : Rect) :
  aabbIntersect a b = false <->
  x a + width a < x b \/ x b + width b < x a \/
  y a + height a < y b \/ y b + height b < y a.
Proof.
  unfold aabbIntersect, gtb.
  rewrite negb_false_iff, !orb_true_iff, !ltb_true. tauto.
Qed.

(** C2, as stated, fails: the rectangles [rectA] and [rectB] touch along the
    edge [x = 10] and nothing else, and [aabbIntersect] answers [true]. *)
Lemma aabbIntersect_touching_counterexample :
  touchingEdge rectA rectB /\ aabbIntersect rectA rectB = true.
Proof.
  split; [|reflexivity].
  unfold touchingEdge, rectA, rectB; simpl. repeat split; lra.
Qed.

(** C2, amended: rectangles of non-negative width that share a touching
    edge ([a.x + a.width = b.x], vertical ranges overlapping or touching)
    do intersect. *)
Theorem aabbIntersect_touching_edge (a b : Rect) :
  0 <= width a -> 0 <= width b ->
  x a + width a == x b ->
  y a <= y b + height b -> y b <= y a + height a ->
  aabbIntersect a b = true.
Proof.
  intros Ha Hb Hx Hy1 Hy2. apply aabbIntersect_true_iff.
  repeat split; lra.
Qed.

Lemma aabbIntersect_touching_edge_witness :
  aabbIntersect rectA rectB = true.
Proof.
  apply (aabbIntersect_touching_edge rectA rectB);
    unfold rectA, rectB; simpl; lra.
Defined.

(** ** Difficulty curve *)

(** *** Comparisons of doubles *)

Lemma SFcompare_lt_le_trans (c0 c1 t : spec_float) :
  SFltb c1 t = true -> SFleb c0 c1 = true -> SFleb t c0 = false.
Proof.
  unfold SFltb, SFleb, SFcompare.
  destruct c0 as [s0|s0| |s0 m0 e0], c1 as [s1|s1| |s1 m1 e1],
           t as [s|s| |s m e];
    try destruct s0; try destruct s1; try destruct s;
    try discriminate; try reflexivity;
    change (PosDef.Pos.compare_cont Eq) with Pos.compare;
    repeat match goal with
    | |- context [(?a ?= ?b)%Z] => destruct (Z.compare_spec a b)
    | |- context [(?a ?= ?b)%positive] => destruct (Pos.compare_spec a b)
    end; simpl; try discriminate; try reflexivity; intros; exfalso; lia.
Qed.

(** [c0 <= c1 < t] leaves no [t <= c0], on doubles too. *)
Lemma float_lt_le_false (c0 c1 t : float) :
  (c1 <? t)%float = true -> (c0 <=? c1)%float = true ->
  (t <=? c0)%float = false.
Proof. rewrite !ltb_spec, !leb_spec. apply SFcompare_lt_le_trans. Qed.

Lemma float_lt_le (a b : float) :
  (a <? b)%float = true -> (a <=? b)%float = true.
Proof.
  rewrite ltb_spec, leb_spec. unfold SFltb, SFleb.
  destruct (SFcompare _ _) as [[]|]; try discriminate; reflexivity.
Qed.

(** C7, as stated, fails: [t = 10] lies strictly between the keyframes at 0
    and 30, where the linear interpolation of the spawn rate is 4/5; on
    doubles [getDifficulty(10)] returns the spawn rate 0.7999999999999999,
    the double below 0.8, although the double 0.8 is nearer to 4/5. *)
Lemma getDifficulty_exact_counterexample :
  (0 <? 10)%float = true /\ (10 <? 30)%float = true
  /\ 0.6 + (1.2 - 0.6) * ((10 - 0) / (30 - 0)) == 4 # 5
  /\ Binary64.getDifficulty 10
     = (0.7999999999999999, 0.8666666666666667)%float
  /\ (0.7999999999999999 <? 0.8)%float = true
  /\ exists lo hi,
       valueOf 0.7999999999999999 = Some lo /\ valueOf 0.8 = Some hi
       /\ lo < 4 # 5 /\ 4 # 5 < hi /\ hi - (4 # 5) < (4 # 5) - lo.
Proof.
  split; [reflexivity|]. split; [reflexivity|].
  split; [vm_compute; reflexivity|].
  split; [vm_compute; reflexivity|].
  split; [reflexivity|].
  eexists; eexists. split; [vm_compute; reflexivity|].
  split; [vm_compute; reflexivity|].
  repeat split; vm_compute; reflexivity.
Qed.

(** C7, amended: for every double [t] strictly between two adjacent
    keyframes [a] and [b] of [DIFFICULTY_CURVE], [getDifficulty t] is
    [a.v + (b.v - a.v) * f] with [f = (t - a.time) / (b.time - a.time)] for
    both fields, every operation being the rounded operation on doubles:
    the linear interpolation up to rounding.  At [t = 45] the result is
    exactly spawn rate 1.5 and speed multiplier 1.1. *)
Theorem getDifficulty_interpolates :
  (forall (i : nat) (a b : Binary64.DifficultyKeyframe) (t : float),
      nth_error Binary64.DIFFICULTY_CURVE i = Some a ->
      nth_error Binary64.DIFFICULTY_CURVE (S i) = Some b ->
      (Binary64.time a <? t)%float = true ->
      (t <? Binary64.time b)%float = true ->
      Binary64.getDifficulty t =
        (Binary64.spawnRate a
         + (Binary64.spawnRate b - Binary64.spawnRate a)
           * ((t - Binary64.time a) / (Binary64.time b - Binary64.time a)),
         Binary64.speedMultiplier a
         + (Binary64.speedMultiplier b - Binary64.speedMultiplier a)
           * ((t - Binary64.time a)
              / (Binary64.time b - Binary64.time a)))%float)
  /\ Binary64.getDifficulty 45%float = (1.5, 1.1)%float.
Proof.
  split; [|vm_compute; reflexivity].
  intros i a b t Ha Hb Hlo Hhi.
  assert (H0 : (t <=? 0)%float = false).
  { apply (float_lt_le_false 0 (Binary64.time a) t Hlo).
    do 4 (destruct i as [|i]; [simpl in Ha; injection Ha as <-; reflexivity|]).
    destruct i; discriminate Hb. }
  assert (Hprev : forall k c, (k < i)%nat ->
             nth_error Binary64.DIFFICULTY_CURVE (S k) = Some c ->
             (t <=? Binary64.time c)%float = false).
  { intros k c Hk Hc.
    apply (float_lt_le_false (Binary64.time c) (Binary64.time a) t Hlo).
    do 4 (destruct i as [|i];
          [simpl in Ha; injection Ha as <-;
           do 4 (destruct k as [|k];
                 [first [lia | simpl in Hc; injection Hc as <-; reflexivity]|]);
           lia|]).
    destruct i; discriminate Hb. }
  pose proof (float_lt_le _ _ Hlo) as Hlo'.
  pose proof (float_lt_le _ _ Hhi) as Hhi'.
  unfold Binary64.getDifficulty. rewrite H0.
  do 4 (destruct i as [|i];
        [simpl in Ha, Hb; injection Ha as <-; injection Hb as <-;
         try (pose proof (Hprev 0%nat _ ltac:(lia) eq_refl) as P0);
         try (pose proof (Hprev 1%nat _ ltac:(lia) eq_refl) as P1);
         try (pose proof (Hprev 2%nat _ ltac:(lia) eq_refl) as P2);
         cbn [Binary64.segmentLoop Binary64.DIFFICULTY_CURVE Binary64.time] in *;
         rewrite ?P0, ?P1, ?P2, ?andb_false_r, Hlo', Hhi'; reflexivity|]).
  destruct i; discriminate Hb.
Qed.

Lemma getDifficulty_interpolates_witness :
  Binary64.getDifficulty 40
  = (1.2 + (1.8 - 1.2) * ((40 - 30) / (60 - 30)),
     1 + (1.2 - 1) * ((40 - 30) / (60 - 30)))%float.
Proof.
  apply (proj1 getDifficulty_interpolates 1%nat
           {| Binary64.time := 30; Binary64.spawnRate := 1.2;
              Binary64.speedMultiplier := 1 |}
           {| Binary64.time := 60; Binary64.spawnRate := 1.8;
              Binary64.speedMultiplier := 1.2 |} 40%float);
    reflexivity.
Defined.

(** ** Round initialisation and the game-over screen *)

Lemma index_CHARACTERS_some (i : Z) :
  (0 <= i < CHARACTERS_length)%Z -> exists c, index CHARACTERS i = Some c.
Proof.
  unfold CHARACTERS_length, index. simpl. intros [Hlo Hhi].
  destruct (i <? 0)%Z eqn:E; [apply Z.ltb_lt in E; lia|].
  destruct (Z.to_nat i) as [|[|[|[|n]]]] eqn:En; simpl; eauto.
  lia.
Qed.

(** C8: from any session state whose index selects a character, [beginPlay]
    succeeds and leaves score 0, the configured number of lives, elapsed
    time and spawn accumulator 0, no items and no miss effects, no recorded
    bomb time and [lastSpawnX] at the horizontal centre of the field. *)
Theorem beginPlay_resets_round (s : GameState) :
  indexInRange s ->
  exists s',
    beginPlay s = Some s'
    /\ score s' = 0%Z
    /\ lives s' = initialLives GAME_CONFIG
    /\ elapsedTime s' = 0
    /\ spawnAccumulator s' = 0
    /\ items s' = []
    /\ missEffects s' = []
    /\ lastBombTime s' = NegInfinity
    /\ lastSpawnX s' = cfg_width GAME_CONFIG / 2
    /\ lastSpawnX s' == 350
    /\ screen s' = playing
    /\ selectedCharacterIndex s' = selectedCharacterIndex s.
Proof.
  intro H. destruct (index_CHARACTERS_some _ H) as [c Hc].
  unfold beginPlay. rewrite Hc. eexists. split; [reflexivity|].
  simpl. repeat split; reflexivity.
Qed.

Lemma beginPlay_resets_round_witness :
  exists s',
    beginPlay midRound = Some s'
    /\ score s' = 0%Z
    /\ lives s' = initialLives GAME_CONFIG
    /\ elapsedTime s' = 0
    /\ spawnAccumulator s' = 0
    /\ items s' = []
    /\ missEffects s' = []
    /\ lastBombTime s' = NegInfinity
    /\ lastSpawnX s' = cfg_width GAME_CONFIG / 2
    /\ lastSpawnX s' == 350
    /\ screen s' = playing
    /\ selectedCharacterIndex s' = selectedCharacterIndex midRound.
Proof.
  apply (beginPlay_resets_round midRound).
  unfold indexInRange, CHARACTERS_length; simpl. lia.
Defined.

(** What [updateGameOver] does on [back] when [restart] is not set. *)
Lemma updateGameOver_back (s : GameState) (i : InputState) :
  restart i = false -> back i = true ->
  updateGameOver s i =
    Some (set_selectedCharacterIndex createInitialState
            (selectedCharacterIndex s),
          set_back i false).
Proof.
  intros Hr Hb. unfold updateGameOver. rewrite Hr, Hb. reflexivity.
Qed.

(** C1, evaluated: on the game-over screen with only [back] set, every field
    takes its initial value except [selectedCharacterIndex], which is kept;
    the screen among them, so the session lands on [start], not on
    [characterSelect]. *)
Theorem updateGameOver_back_lands_on_start :
  screen lostRound = gameOver
  /\ back backPressed = true
  /\ restart backPressed = false
  /\ updateGameOver lostRound backPressed =
       Some (set_selectedCharacterIndex createInitialState 2, createInputState)
  /\ screen (set_selectedCharacterIndex createInitialState 2) = start
  /\ start <> characterSelect.
Proof.
  repeat split; try reflexivity. discriminate.
Qed.

(** ** Item selection *)

Lemma find_bomb :
  find (fun t => (it_id t =? "bomb")%string && truthy (isHazard t)) ITEM_TYPES
  = Some bombItem.
Proof. reflexivity. Qed.

(** The items of the pairs (base, rare) are in the catalog and harmless. *)
Lemma find_plain (name : string) :
  In name ["itemA"; "itemB"; "itemC"; "itemD";
           "itemE"; "itemF"; "itemG"; "itemH"] ->
  exists ty,
    find (fun t => (it_id t =? name)%string) ITEM_TYPES = Some ty
    /\ truthy (isHazard ty) = false.
Proof.
  simpl. intros H.
  repeat (destruct H as [<- | H]; [eexists; split; reflexivity|]).
  contradiction.
Qed.

Lemma sameRound_refl (s : GameState) : sameRound s s.
Proof. repeat split. Qed.

Lemma sameRound_trans (s1 s2 s3 : GameState) :
  sameRound s1 s2 -> sameRound s2 s3 -> sameRound s1 s3.
Proof.
  unfold sameRound. intros H1 H2.
  decompose [and] H1. decompose [and] H2. repeat split; congruence.
Qed.

(** [pickItemType] always finds an item.  Either it is harmless and the
    session is untouched, or it is the bomb: then the clock is at 5s or
    later, the cooldown since the last bomb has passed, and the bomb time
    is recorded. *)
Lemma pickItemType_cases (s : GameState) (g : Rng) :
  exists ty g',
    (pickItemType s g = (Some ty, s, g') /\ truthy (isHazard ty) = false)
    \/ (pickItemType s g
          = (Some ty, set_lastBombTime s (Finite (elapsedTime s)), g')
        /\ truthy (isHazard ty) = true
        /\ 5 <= elapsedTime s
        /\ xltb (xsub (elapsedTime s) (lastBombTime s)) 1.2 = false).
Proof.
  unfold pickItemType. rewrite find_bomb.
  assert (Hpair : exists b r,
             In b ["itemA"; "itemB"; "itemC"; "itemD";
                   "itemE"; "itemF"; "itemG"; "itemH"]
             /\ In r ["itemA"; "itemB"; "itemC"; "itemD";
                      "itemE"; "itemF"; "itemG"; "itemH"]
             /\ (if (selectedCharacterIndex s =? 1)%Z then ("itemB", Some "itemF")
                 else if (selectedCharacterIndex s =? 2)%Z then ("itemC", Some "itemD")
                 else if (selectedCharacterIndex s =? 3)%Z then ("itemG", Some "itemH")
                 else ("itemA", Some "itemE")) = (b, Some r)).
  { destruct (selectedCharacterIndex s =? 1)%Z;
      [|destruct (selectedCharacterIndex s =? 2)%Z;
        [|destruct (selectedCharacterIndex s =? 3)%Z]];
      do 2 eexists; (split; [|split; [|reflexivity]]); simpl; tauto. }
  destruct Hpair as (b & r & Hb & Hr & ->).
  destruct (find_plain b Hb) as (tb & -> & Htb).
  destruct (find_plain r Hr) as (tr & -> & Htr).
  cbv beta iota zeta.
  set (c := if geb (elapsedTime s) 5 then _ else _).
  destruct (gtb c 0) eqn:Hc.
  - destruct (Math_random g) as [q g1]. destruct (ltb q c) eqn:Hq.
    + exists bombItem, g1. right. split; [reflexivity|].
      split; [reflexivity|].
      subst c. unfold geb in Hc.
      destruct (Qle_bool 5 (elapsedTime s)) eqn:E5; [|discriminate Hc].
      apply Qle_bool_iff in E5. split; [exact E5|].
      destruct (xltb (xsub (elapsedTime s) (lastBombTime s)) 1.2);
        [discriminate Hc|reflexivity].
    + destruct (Math_random g1) as [q2 g2].
      destruct (ltb q2 RARE_ITEM_CHANCE); eexists; eexists; left;
        (split; [reflexivity|assumption]).
  - destruct (Math_random g) as [q2 g2].
    destruct (ltb q2 RARE_ITEM_CHANCE); eexists; eexists; left;
      (split; [reflexivity|assumption]).
Qed.

(** C6: whatever [Math.random()] yields, [pickItemType] returns an item that
    is not a hazard when the clock is below 5s, and when less than 1.2s
    have passed since the last bomb spawn; the session is left as it was. *)
Theorem pickItemType_no_hazard (s : GameState) (g : Rng) :
  elapsedTime s < 5
  \/ (exists l, lastBombTime s = Finite l /\ elapsedTime s - l < 1.2) ->
  exists ty g',
    pickItemType s g = (Some ty, s, g') /\ truthy (isHazard ty) = false.
Proof.
  intros H.
  destruct (pickItemType_cases s g) as (ty & g' & [Hok | (_ & _ & H5 & Hcd)]).
  - exists ty, g'. exact Hok.
  - exfalso. destruct H as [H | (l & Hl & H)]; [lra|].
    rewrite Hl in Hcd. simpl in Hcd. apply ltb_false in Hcd. lra.
Qed.

Lemma pickItemType_no_hazard_witness :
  exists ty g',
    pickItemType afterBomb zeroDraws = (Some ty, afterBomb, g')
    /\ truthy (isHazard ty) = false.
Proof.
  apply (pickItemType_no_hazard afterBomb zeroDraws).
  right. exists 19.5. split; [reflexivity|]. simpl. lra.
Defined.

(** With the same draws the bomb is picked once the cooldown is over. *)
Example pickItemType_bomb_after_cooldown :
  fst (fst (pickItemType (set_lastBombTime afterBomb (Finite 18)) zeroDraws))
  = Some bombItem.
Proof. vm_compute. reflexivity. Qed.

(** ** Spawn scheduler *)

Lemma spawnLoop_step (diff : Difficulty) (iv : Q) (n : nat)
    (s : GameState) (g : Rng) :
  spawnLoop diff iv n s g =
    if spawnCondition iv n s
    then match spawnBody diff iv s g with
         | Some (s', g') => spawnLoop diff iv (S n) s' g'
         | None => None
         end
    else Some (s, g).
Proof.
  funelim (spawnLoop diff iv n s g);
    rewrite e; try rewrite Heq; reflexivity.
Qed.

(** One pass of the loop body never throws and pushes exactly one item. *)
Lemma spawnBody_pushes_one (diff : Difficulty) (iv : Q)
    (s : GameState) (g : Rng) :
  exists s' g' item,
    spawnBody diff iv s g = Some (s', g')
    /\ items s' = items s ++ [item]
    /\ sameRound s s'.
Proof.
  unfold spawnBody.
  destruct (pickItemType_cases (set_spawnAccumulator s (spawnAccumulator s - iv)) g)
    as (ty & g1 & [[-> _] | [-> _]]);
    destruct (createFallingItem ty (cfg_width GAME_CONFIG) _ g1) as [item g2];
    do 3 eexists; (split; [reflexivity|]); simpl;
    (split; [reflexivity|unfold sameRound; simpl; repeat split]).
Qed.

Lemma spawnLoop_bounded (diff : Difficulty) (iv : Q) (k : nat) :
  forall (n : nat) (s : GameState) (g : Rng),
    (MAX_SPAWNS_PER_FRAME - n = k)%nat ->
    exists s' g' new,
      spawnLoop diff iv n s g = Some (s', g')
      /\ items s' = items s ++ new
      /\ (List.length new <= k)%nat
      /\ sameRound s s'.
Proof.
  induction k as [|k IH]; intros n s g Hk; rewrite spawnLoop_step.
  - assert (Hc : spawnCondition iv n s = false).
    { unfold spawnCondition. apply andb_false_intro2.
      apply Nat.ltb_ge. lia. }
    rewrite Hc. exists s, g, []. rewrite app_nil_r.
    repeat split; simpl; lia.
  - destruct (spawnCondition iv n s) eqn:Hc.
    + destruct (spawnBody_pushes_one diff iv s g)
        as (s1 & g1 & item & -> & Hitems & Hsame).
      destruct (IH (S n) s1 g1 ltac:(lia))
        as (s2 & g2 & new & -> & Hitems2 & Hlen & Hsame2).
      exists s2, g2, (item :: new). split; [reflexivity|].
      split; [|split].
      * rewrite Hitems2, Hitems, <- app_assoc. reflexivity.
      * simpl. lia.
      * eapply sameRound_trans; eassumption.
    + exists s, g, []. rewrite app_nil_r.
      split; [reflexivity|]. split; [reflexivity|].
      split; [simpl; lia|apply sameRound_refl].
Qed.

Lemma spawnScheduler_bounded (diff : Difficulty) (s : GameState) (dt : Q)
    (g : Rng) :
  exists s' g' new,
    spawnScheduler diff s dt g = Some (s', g')
    /\ items s' = items s ++ new
    /\ (List.length new <= MAX_SPAWNS_PER_FRAME)%nat
    /\ sameRound s s'.
Proof.
  unfold spawnScheduler.
  destruct (gtb (d_spawnRate diff) 0).
  - destruct (spawnLoop_bounded diff (1 / d_spawnRate diff)
                MAX_SPAWNS_PER_FRAME 0
                (set_spawnAccumulator s (spawnAccumulator s + dt)) g
                ltac:(reflexivity))
      as (s' & g' & new & H & Hitems & Hlen & Hsame).
    exists s', g', new. repeat split; try assumption; apply Hsame.
  - exists (set_spawnAccumulator s (spawnAccumulator s + dt)), g, [].
    simpl. rewrite app_nil_r. repeat split. lia.
Qed.

(** ** The item loop *)

Section ItemLoop.

Variables (p : Player) (dt groundY : Q).

(** The survivors are items of the array, so there are no more of them. *)
Lemma itemLoop_remaining_length (its : list FallingItem) :
  forall (s : GameState) (remaining : list FallingItem),
    (List.length (snd (itemLoop p dt groundY its s remaining))
     <= List.length remaining + List.length its)%nat.
Proof.
  induction its as [|item rest IH]; intros s remaining; simpl; [lia|].
  repeat match goal with
         | |- context [if ?c then _ else _] => destruct c
         end; simpl; try lia;
    try (etransitivity; [apply IH|]; try rewrite length_app; simpl; lia).
Qed.

(** The loop writes the score, the lives, the screen and the miss effects
    only. *)
Lemma itemLoop_keeps (its : list FallingItem) :
  forall (s : GameState) (remaining : list FallingItem),
    let s' := fst (itemLoop p dt groundY its s remaining) in
    player s' = player s
    /\ selectedCharacterIndex s' = selectedCharacterIndex s
    /\ elapsedTime s' = elapsedTime s
    /\ spawnAccumulator s' = spawnAccumulator s
    /\ lastBombTime s' = lastBombTime s
    /\ lastSpawnX s' = lastSpawnX s.
Proof.
  induction its as [|item rest IH]; intros s remaining; simpl;
    [repeat split|].
  repeat match goal with
         | |- context [if ?c then _ else _] => destruct c
         end; simpl; try (repeat split; fail);
    match goal with
    | |- context [itemLoop p dt groundY rest ?s1 ?r1] =>
        destruct (IH s1 r1) as (H1 & H2 & H3 & H4 & H5 & H6);
        simpl in *; repeat split; assumption
    end.
Qed.

(** From a positive number of lives the loop either keeps the screen with
    lives still positive, or ends the round with exactly 0 lives. *)
Lemma itemLoop_lives (its : list FallingItem) :
  forall (s : GameState) (remaining : list FallingItem),
    (0 < lives s)%Z ->
    let s' := fst (itemLoop p dt groundY its s remaining) in
    ((0 < lives s')%Z /\ screen s' = screen s)
    \/ (lives s' = 0%Z /\ screen s' = gameOver).
Proof.
  induction its as [|item rest IH]; intros s remaining Hpos;
    cbn [itemLoop]; cbv zeta;
    [left; split; [assumption|reflexivity]|].
  destruct (aabbIntersect p (moveItem item dt)).
  - destruct (truthy (isHazard (type (moveItem item dt)))).
    + right. split; reflexivity.
    + apply (IH (set_score s _) remaining). exact Hpos.
  - destruct (geb _ groundY); [|apply IH; exact Hpos].
    destruct (truthy (isHazard (type (moveItem item dt)))); cbn [negb];
      [apply IH; exact Hpos|].
    change (lives (set_missEffects (set_lives s (lives s - 1)) _))
      with (lives s - 1)%Z.
    destruct (lives s - 1 <=? 0)%Z eqn:E.
    + right. simpl. apply Z.leb_le in E. split; [lia|reflexivity].
    + apply Z.leb_gt in E.
      match goal with
      | |- context [itemLoop p dt groundY rest ?s1 ?r1] =>
          destruct (IH s1 r1 E) as [[H1 H2] | [H1 H2]]
      end; [left | right]; split; assumption.
Qed.

(** The loop ends on the game-over screen whenever an item of the array is
    a hazard that overlaps the player, and the result does not depend on
    the items behind it. *)
Lemma itemLoop_hazard (pre : list FallingItem) (it : FallingItem)
    (post : list FallingItem) :
  truthy (isHazard (type it)) = true ->
  aabbIntersect p (moveItem it dt) = true ->
  forall (s : GameState) (remaining : list FallingItem),
    itemLoop p dt groundY (pre ++ it :: post) s remaining
    = itemLoop p dt groundY (pre ++ [it]) s remaining
    /\ screen (fst (itemLoop p dt groundY (pre ++ it :: post) s remaining))
       = gameOver.
Proof.
  intros Hhz Hhit.
  induction pre as [|item rest IH]; intros s remaining;
    cbn [app itemLoop]; cbv zeta.
  - rewrite Hhit.
    change (type (moveItem it dt)) with (type it). rewrite Hhz.
    split; reflexivity.
  - repeat match goal with
           | |- context [if ?c then _ else _] => destruct c
           end; try (split; reflexivity); apply IH.
Qed.

End ItemLoop.

(** ** One frame of play *)

(** With a player, a frame of play never throws: it moves the player,
    advances the clock, runs the scheduler, which adds at most two items,
    and then the item loop over all the items. *)
Lemma updatePlaying_frame (rt : GameRuntime) (dt : Q) (g : Rng) (p0 : Player) :
  player (state rt) = Some p0 ->
  let p := movePlayer p0 (input rt) dt in
  exists s2 g1 new,
    items s2 = items (state rt) ++ new
    /\ (List.length new <= MAX_SPAWNS_PER_FRAME)%nat
    /\ screen s2 = screen (state rt)
    /\ selectedCharacterIndex s2 = selectedCharacterIndex (state rt)
    /\ lives s2 = lives (state rt)
    /\ updatePlaying rt dt g =
         Some ({| state := finishFrame (itemLoop p dt groundLine (items s2) s2 []) dt;
                  input := input rt;
                  spawnRateDebug :=
                    d_spawnRate (getDifficulty (elapsedTime (state rt) + dt)) |},
               g1).
Proof.
  intros Hp p. unfold updatePlaying. rewrite Hp. fold p.
  match goal with
  | |- context [spawnScheduler ?d ?s0 dt g] =>
      destruct (spawnScheduler_bounded d s0 dt g)
        as (s2 & g1 & new & -> & Hitems & Hlen & Hsame)
  end.
  destruct Hsame as (Hscr & _ & Hidx & _ & Hlives & _).
  simpl in Hitems, Hscr, Hidx, Hlives.
  exists s2, g1, new. repeat split; try assumption.
  unfold finishFrame, groundLine.
  destruct (itemLoop p dt (cfg_height GAME_CONFIG - 10) (items s2) s2 []).
  reflexivity.
Qed.

(** C5: in one call of [updatePlaying], for any [dt], any difficulty and any
    spawn accumulator, the spawn scheduler returns and the items it leaves
    are the former items followed by at most [MAX_SPAWNS_PER_FRAME = 2] new
    ones; the frame as a whole leaves at most two items more than it found. *)
Theorem spawnScheduler_cap :
  MAX_SPAWNS_PER_FRAME = 2%nat
  /\ (forall (diff : Difficulty) (s : GameState) (dt : Q) (g : Rng),
         exists s' g' new,
           spawnScheduler diff s dt g = Some (s', g')
           /\ items s' = items s ++ new
           /\ (List.length new <= 2)%nat)
  /\ (forall (rt : GameRuntime) (dt : Q) (g : Rng),
         exists rt' g',
           updatePlaying rt dt g = Some (rt', g')
           /\ (List.length (items (state rt'))
               <= List.length (items (state rt)) + 2)%nat).
Proof.
  split; [reflexivity|]. split.
  - intros diff s dt g.
    destruct (spawnScheduler_bounded diff s dt g)
      as (s' & g' & new & H & Hitems & Hlen & _).
    exists s', g', new. auto.
  - intros rt dt g. destruct (player (state rt)) as [p0|] eqn:Hp.
    + destruct (updatePlaying_frame rt dt g p0 Hp)
        as (s2 & g1 & new & Hitems & Hlen & _ & _ & _ & ->).
      do 2 eexists. split; [reflexivity|]. simpl.
      etransitivity; [apply itemLoop_remaining_length|].
      rewrite Hitems, length_app. unfold MAX_SPAWNS_PER_FRAME in Hlen.
      simpl. lia.
    + exists rt, g. unfold updatePlaying. rewrite Hp.
      split; [reflexivity|lia].
Qed.

(** ** Spawn position *)

(** C9: whatever [Math.random()] yields, on a field of non-negative width an
    item created with a previous spawn x inside
    [[margin, fieldWidth - width - margin]] lies at most 35% of the field
    width away from that previous x. *)
Theorem createFallingItem_step_bounded
    (ty : ItemTypeConfig) (canvasWidth lastX : Q) (g : Rng) :
  0 <= canvasWidth ->
  12 <= lastX ->
  lastX <= canvasWidth - nullish (it_width ty) 12 - 12 ->
  Math_abs (x (fst (createFallingItem ty canvasWidth (Some lastX) g)) - lastX)
  <= canvasWidth * 0.35.
Proof.
  intros Hw Hlo Hhi. unfold createFallingItem.
  destruct (Math_random g) as [r g1]. cbv zeta. cbn [fst x i_rect].
  generalize dependent (nullish (it_width ty) 12). intros w Hhi.
  generalize (r * (canvasWidth - w - 12 - 12) + 12). intros x0.
  unfold gtb, ltb, Math_abs, Math_max, Math_min, Math_sign, ltb.
  qcases; lra.
Qed.

Lemma createFallingItem_step_bounded_witness :
  Math_abs (x (fst (createFallingItem bombItem 700 (Some 20)
                      (mkRng (fun _ => 0.99) 0))) - 20)
  <= 700 * 0.35.
Proof.
  apply (createFallingItem_step_bounded bombItem 700 20
           (mkRng (fun _ => 0.99) 0)); simpl; lra.
Defined.

(** At that draw the unclamped position would be 649.56, far beyond the
    step; the item is put at [20 + 245]. *)
Example createFallingItem_clamps :
  x (fst (createFallingItem bombItem 700 (Some 20) (mkRng (fun _ => 0.99) 0)))
  == 265.
Proof. vm_compute. reflexivity. Qed.

(** ** The running session *)

(** ** Catching a hazard *)

Lemma itemLoop_hazard_lives (p : Player) (dt groundY : Q)
    (pre : list FallingItem) (it : FallingItem) (post : list FallingItem) :
  truthy (isHazard (type it)) = true ->
  aabbIntersect p (moveItem it dt) = true ->
  forall (s : GameState) (remaining : list FallingItem),
    (0 < lives s)%Z ->
    lives (fst (itemLoop p dt groundY (pre ++ it :: post) s remaining)) = 0%Z
    /\ (List.length (snd (itemLoop p dt groundY (pre ++ it :: post) s remaining))
        <= List.length remaining + List.length pre)%nat.
Proof.
  intros Hhz Hhit.
  induction pre as [|item rest IH]; intros s remaining Hpos;
    cbn [app itemLoop]; cbv zeta.
  - rewrite Hhit.
    change (type (moveItem it dt)) with (type it). rewrite Hhz.
    split; [reflexivity|cbn [List.length snd fst]; lia].
  - destruct (aabbIntersect p (moveItem item dt)).
    + destruct (truthy (isHazard (type (moveItem item dt)))).
      * split; [reflexivity|cbn [List.length snd fst]; lia].
      * destruct (IH (set_score s (score s + scoreValue (type (moveItem item dt))))
                     remaining Hpos) as [H1 H2].
        split; [exact H1|cbn [List.length snd fst]; lia].
    + destruct (geb _ groundY).
      * destruct (truthy (isHazard (type (moveItem item dt)))); cbn [negb].
        -- destruct (IH s remaining Hpos) as [H1 H2].
           split; [exact H1|cbn [List.length snd fst]; lia].
        -- change (lives (set_missEffects (set_lives s (lives s - 1)) _))
             with (lives s - 1)%Z.
           destruct (lives s - 1 <=? 0)%Z eqn:E.
           ++ apply Z.leb_le in E. simpl. split; lia.
           ++ apply Z.leb_gt in E.
              match goal with
              | |- context [itemLoop p dt groundY _ ?s1 ?r1] =>
                  destruct (IH s1 r1 E) as [H1 H2]
              end.
              split; [exact H1|cbn [List.length snd fst]; lia].
      * destruct (IH s (remaining ++ [moveItem item dt]) Hpos) as [H1 H2].
        split; [exact H1|].
        rewrite length_app in H2. simpl in *. lia.
Qed.

(** C3: a hazard that overlaps the player ends the item loop on the spot,
    with 0 lives and the game-over screen, whatever the lives were; with
    positive lives, the loop over a collection that holds such a hazard
    ends with 0 lives on the game-over screen and its result does not
    depend on the items behind the hazard; and so does the whole frame,
    which keeps no item from the hazard on. *)
Theorem hazard_ends_round :
  (forall (p : Player) (dt groundY : Q) (it : FallingItem)
          (post : list FallingItem) (s : GameState)
          (remaining : list FallingItem),
      truthy (isHazard (type it)) = true ->
      aabbIntersect p (moveItem it dt) = true ->
      itemLoop p dt groundY (it :: post) s remaining
      = (set_screen (set_lives s 0) gameOver, remaining))
  /\ (forall (p : Player) (dt groundY : Q) (pre : list FallingItem)
             (it : FallingItem) (post : list FallingItem) (s : GameState)
             (remaining : list FallingItem),
         truthy (isHazard (type it)) = true ->
         aabbIntersect p (moveItem it dt) = true ->
         (0 < lives s)%Z ->
         let r := itemLoop p dt groundY (pre ++ it :: post) s remaining in
         lives (fst r) = 0%Z
         /\ screen (fst r) = gameOver
         /\ r = itemLoop p dt groundY (pre ++ [it]) s remaining)
  /\ (forall (rt : GameRuntime) (dt : Q) (g : Rng) (p0 : Player)
             (pre : list FallingItem) (it : FallingItem)
             (post : list FallingItem),
         player (state rt) = Some p0 ->
         items (state rt) = pre ++ it :: post ->
         truthy (isHazard (type it)) = true ->
         aabbIntersect (movePlayer p0 (input rt) dt) (moveItem it dt) = true ->
         (0 < lives (state rt))%Z ->
         exists rt' g',
           updatePlaying rt dt g = Some (rt', g')
           /\ lives (state rt') = 0%Z
           /\ screen (state rt') = gameOver
           /\ (List.length (items (state rt')) <= List.length pre)%nat).
Proof.
  split; [|split].
  - intros p dt groundY it post s remaining Hhz Hhit.
    cbn [itemLoop]; cbv zeta. rewrite Hhit.
    change (type (moveItem it dt)) with (type it). rewrite Hhz. reflexivity.
  - intros p dt groundY pre it post s remaining Hhz Hhit Hpos r. subst r.
    destruct (itemLoop_hazard p dt groundY pre it post Hhz Hhit s remaining)
      as [Heq Hscr].
    destruct (itemLoop_hazard_lives p dt groundY pre it post Hhz Hhit
                s remaining Hpos) as [Hl _].
    auto.
  - intros rt dt g p0 pre it post Hp Hitems Hhz Hhit Hpos.
    destruct (updatePlaying_frame rt dt g p0 Hp)
      as (s2 & g1 & new & Hitems2 & _ & _ & _ & Hlives & ->).
    do 2 eexists. split; [reflexivity|].
    rewrite Hitems2, Hitems, <- app_assoc, <- app_comm_cons.
    rewrite <- Hlives in Hpos.
    destruct (itemLoop_hazard _ dt groundLine pre it (post ++ new) Hhz Hhit s2 [])
      as [_ Hscr].
    destruct (itemLoop_hazard_lives _ dt groundLine pre it (post ++ new)
                Hhz Hhit s2 [] Hpos) as [Hl Hlen].
    simpl. auto.
Qed.

Lemma hazard_ends_round_witness :
  exists rt' g',
    updatePlaying hazardRound 0.016 zeroDraws = Some (rt', g')
    /\ lives (state rt') = 0%Z
    /\ screen (state rt') = gameOver
    /\ (List.length (items (state rt')) <= 1)%nat.
Proof.
  refine (proj2 (proj2 hazard_ends_round) hazardRound 0.016 zeroDraws _
            [_] _ [_] _ _ _ _ _);
    try reflexivity.
Defined.

(** The frame on [hazardRound], evaluated: the lives drop from 3 to 0, the
    first item survives, and the third, which would have been missed on the
    ground, is dropped without a miss effect. *)
Example hazard_frame_evaluated :
  option_map
    (fun r => (lives (state (fst r)), screen (state (fst r)),
               score (state (fst r)),
               List.length (items (state (fst r))),
               List.length (missEffects (state (fst r)))))
    (updatePlaying hazardRound 0.016 zeroDraws)
  = Some (0%Z, gameOver, 7%Z, 1%nat, 1%nat).
Proof. vm_compute. reflexivity. Qed.

(** ** Invariants of the session *)

Lemma CHARACTERS_length_4 : CHARACTERS_length = 4%Z.
Proof. reflexivity. Qed.

Lemma beginPlay_inv (s : GameState) :
  indexInRange s ->
  exists s',
    beginPlay s = Some s'
    /\ selectedCharacterIndex s' = selectedCharacterIndex s
    /\ lives s' = 3%Z
    /\ screen s' = playing.
Proof.
  intro H. destruct (index_CHARACTERS_some _ H) as [c Hc].
  unfold beginPlay. rewrite Hc. eexists. repeat split.
Qed.

Lemma updateCharacterSelect_inv (s : GameState) (i : InputState) (dt : Q) :
  indexInRange s ->
  exists s' i',
    updateCharacterSelect s i dt = Some (s', i')
    /\ selectedCharacterIndex s' = cycled i (selectedCharacterIndex s)
    /\ indexInRange s'
    /\ (confirm i = true -> lives s' = 3%Z /\ screen s' = playing)
    /\ (confirm i = false -> lives s' = lives s /\ screen s' = screen s).
Proof.
  unfold indexInRange, cycled. rewrite CHARACTERS_length_4. intros H.
  unfold updateCharacterSelect. rewrite CHARACTERS_length_4.
  set (idx := selectedCharacterIndex s) in *.
  assert (H1 : (Z.rem (idx - 1 + 4) 4 = (idx - 1) mod 4)%Z).
  { rewrite Z.rem_mod_nonneg by lia.
    replace (idx - 1 + 4)%Z with (idx - 1 + 1 * 4)%Z by lia.
    apply Z.mod_add. lia. }
  assert (Hm : forall a, (0 <= a mod 4 < 4)%Z)
    by (intro a; apply Z.mod_pos_bound; lia).
  destruct (left i) eqn:Hl; cbn [right set_left selectedCharacterIndex
                                 set_selectedCharacterIndex];
    destruct (right i) eqn:Hr; cbn [confirm set_right set_left
                                   selectedCharacterIndex
                                   set_selectedCharacterIndex];
    rewrite ?H1;
    try rewrite (Z.rem_mod_nonneg (_ + 1) 4) by (pose proof (Hm (idx - 1)%Z); lia);
    (destruct (confirm i) eqn:Hc;
     [ match goal with
       | |- context [beginPlay ?s0] =>
           destruct (beginPlay_inv s0) as (s' & -> & Hi & Hlv & Hsc);
           [unfold indexInRange; rewrite CHARACTERS_length_4; simpl;
            first [apply Hm | exact H]|];
           do 2 eexists; split; [reflexivity|];
           rewrite Hi; simpl;
           repeat split; try assumption; try discriminate;
           first [apply Hm | apply H]
       end
     | do 2 eexists; split; [reflexivity|]; simpl;
       repeat split; try discriminate; first [apply Hm | apply H] ]).
Qed.

Lemma updateGameOver_inv (s : GameState) (i : InputState) :
  indexInRange s ->
  exists s' i',
    updateGameOver s i = Some (s', i')
    /\ selectedCharacterIndex s' = selectedCharacterIndex s
    /\ (s' = s \/ (lives s' = 3%Z /\ (screen s' = playing \/ screen s' = start))).
Proof.
  intros H. unfold updateGameOver.
  destruct (restart i).
  - destruct (beginPlay_inv s H) as (s' & -> & Hi & Hlv & Hsc).
    do 2 eexists. split; [reflexivity|]. auto.
  - destruct (back i); do 2 eexists; (split; [reflexivity|]); simpl; auto.
Qed.

Lemma finishFrame_keeps (r : GameState * list FallingItem) (dt : Q) :
  lives (finishFrame r dt) = lives (fst r)
  /\ screen (finishFrame r dt) = screen (fst r)
  /\ selectedCharacterIndex (finishFrame r dt) = selectedCharacterIndex (fst r).
Proof. repeat split. Qed.

(** A frame of play keeps the index; from positive lives it leaves either
    positive lives on the same screen or 0 lives on the game-over screen. *)
Lemma updatePlaying_inv (rt : GameRuntime) (dt : Q) (g : Rng) :
  exists rt' g',
    updatePlaying rt dt g = Some (rt', g')
    /\ selectedCharacterIndex (state rt') = selectedCharacterIndex (state rt)
    /\ ((0 < lives (state rt))%Z ->
        ((0 < lives (state rt'))%Z /\ screen (state rt') = screen (state rt))
        \/ (lives (state rt') = 0%Z /\ screen (state rt') = gameOver)).
Proof.
  destruct (player (state rt)) as [p0|] eqn:Hp.
  - destruct (updatePlaying_frame rt dt g p0 Hp)
      as (s2 & g1 & new & _ & _ & Hscr & Hidx & Hlives & ->).
    do 2 eexists. split; [reflexivity|]. cbn [state].
    destruct (finishFrame_keeps
                (itemLoop (movePlayer p0 (input rt) dt) dt groundLine
                          (items s2) s2 []) dt) as (-> & -> & ->).
    split.
    + rewrite <- Hidx.
      apply (itemLoop_keeps (movePlayer p0 (input rt) dt) dt groundLine
                            (items s2) s2 []).
    + intro Hpos. rewrite <- Hlives in Hpos. rewrite <- Hscr.
      apply itemLoop_lives. exact Hpos.
  - exists rt, g. unfold updatePlaying. rewrite Hp.
    split; [reflexivity|]. split; [reflexivity|]. intro Hpos. left. auto.
Qed.

(** A frame never throws on a session that satisfies the invariant, and
    the invariant holds after it; if the lives are 0 after the frame and
    were not before, the screen after it is game-over. *)
Lemma update_inv (rt : GameRuntime) (dt : Q) (g : Rng) :
  sessionInv (state rt) ->
  exists rt' g',
    update rt dt g = Some (rt', g')
    /\ sessionInv (state rt')
    /\ (lives (state rt') = 0%Z -> lives (state rt) <> 0%Z ->
        screen (state rt') = gameOver).
Proof.
  intros (Hidx & Hlv & Hplay). unfold update.
  destruct (screen (state rt)) eqn:Hscr.
  - exists rt, g. split; [reflexivity|].
    split; [|intros; congruence].
    repeat split; try apply Hidx; try assumption.
    rewrite Hscr. discriminate.
  - destruct (updateCharacterSelect_inv (state rt) (input rt) dt Hidx)
      as (s' & i' & -> & _ & Hi & Hyes & Hno).
    do 2 eexists. split; [reflexivity|]. cbn [state].
    destruct (confirm (input rt)).
    + destruct (Hyes eq_refl) as [Hl Hs].
      split; [|intros; lia].
      repeat split; try apply Hi; lia.
    + destruct (Hno eq_refl) as [Hl Hs].
      split; [|intros; congruence].
      repeat split; try apply Hi; try lia.
      rewrite Hs, Hscr. discriminate.
  - destruct (updatePlaying_inv rt dt g) as (rt' & g' & -> & Hi & Hl).
    exists rt', g'. split; [reflexivity|].
    destruct (Hl (Hplay eq_refl)) as [[Hpos Hs] | [Hz Hs]].
    + split; [|intros; lia].
      unfold sessionInv, indexInRange. rewrite Hi.
      repeat split; try apply Hidx; lia.
    + split; [|intros; exact Hs].
      unfold sessionInv, indexInRange. rewrite Hi, Hs.
      repeat split; try apply Hidx; try lia. discriminate.
  - destruct (updateGameOver_inv (state rt) (input rt) Hidx)
      as (s' & i' & -> & Hi & [-> | [Hl Hs]]).
    + do 2 eexists. split; [reflexivity|]. cbn [state].
      split; [|intros; congruence].
      repeat split; try apply Hidx; try assumption.
      rewrite Hscr. discriminate.
    + do 2 eexists. split; [reflexivity|]. cbn [state].
      split; [|intros; lia].
      unfold sessionInv, indexInRange. rewrite Hi.
      repeat split; try apply Hidx; lia.
Qed.

Lemma selectCharacter_inv (s : GameState) (k : Z) :
  indexInRange s -> indexInRange (selectCharacter s k).
Proof.
  unfold selectCharacter, indexInRange. intros H.
  destruct (0 <=? k)%Z eqn:E1; destruct (k <? CHARACTERS_length)%Z eqn:E2;
    simpl; try exact H.
  apply Z.leb_le in E1. apply Z.ltb_lt in E2. lia.
Qed.

Lemma selectCharacter_keeps (s : GameState) (k : Z) :
  lives (selectCharacter s k) = lives s
  /\ screen (selectCharacter s k) = screen s.
Proof.
  unfold selectCharacter.
  destruct ((0 <=? k)%Z && (k <? CHARACTERS_length)%Z); split; reflexivity.
Qed.

(** No event throws on a session that satisfies the invariant, and the
    invariant holds after it. *)
Lemma handle_inv (rt : GameRuntime) (e : Event) :
  sessionInv (state rt) ->
  exists rt', handle rt e = Some rt' /\ sessionInv (state rt').
Proof.
  intros Hinv. pose proof Hinv as (Hidx & Hlv & Hplay).
  destruct e as [dt g|code|code| |k| | | ]; cbn [handle].
  - destruct (update_inv rt dt g Hinv) as (rt' & g' & -> & Hinv' & _).
    exists rt'. split; [reflexivity|exact Hinv'].
  - eexists. split; [reflexivity|exact Hinv].
  - eexists. split; [reflexivity|exact Hinv].
  - eexists. split; [reflexivity|].
    repeat split; try apply Hidx; try assumption; try discriminate.
  - eexists. split; [reflexivity|]. cbn [state withState].
    destruct (selectCharacter_keeps (state rt) k) as [Hl Hs].
    unfold sessionInv. rewrite Hl, Hs.
    split; [apply selectCharacter_inv; exact Hidx|]. split; assumption.
  - destruct (beginPlay_inv (state rt) Hidx) as (s' & -> & Hi & Hl & Hs).
    eexists. split; [reflexivity|]. cbn [state withState option_map].
    unfold sessionInv, indexInRange. rewrite Hi, Hl.
    repeat split; try apply Hidx; lia.
  - destruct (beginPlay_inv (state rt) Hidx) as (s' & -> & Hi & Hl & Hs).
    eexists. split; [reflexivity|]. cbn [state withState option_map].
    unfold sessionInv, indexInRange. rewrite Hi, Hl.
    repeat split; try apply Hidx; lia.
  - eexists. split; [reflexivity|].
    repeat split; try apply Hidx; try assumption; try discriminate.
Qed.

Lemma reachable_inv (rt : GameRuntime) : reachable rt -> sessionInv (state rt).
Proof.
  induction 1 as [|rt rt' e _ IH He].
  - unfold sessionInv, indexInRange. simpl. rewrite CHARACTERS_length_4.
    repeat split; lia.
  - destruct (handle_inv rt e IH) as (rt'' & He' & Hinv).
    rewrite He in He'. injection He' as <-. exact Hinv.
Qed.

Lemma run_reachable (es : list Event) :
  forall rt rt', reachable rt -> run rt es = Some rt' -> reachable rt'.
Proof.
  induction es as [|e rest IH]; intros rt rt' Hr Hrun; simpl in Hrun.
  - injection Hrun as <-. exact Hr.
  - destruct (handle rt e) as [rt1|] eqn:He; [|discriminate].
    apply (IH rt1); [|exact Hrun].
    apply (reachable_event rt rt1 e); assumption.
Qed.

(** ** Lives *)

(** C4: in every reachable session the lives are not negative, and positive
    while the screen is [playing]; a frame from it never throws, and if the
    lives are 0 after the frame and were not before, the screen after the
    frame is [gameOver]. *)
Theorem lives_never_negative (rt : GameRuntime) :
  reachable rt ->
  (0 <= lives (state rt))%Z
  /\ (screen (state rt) = playing -> (0 < lives (state rt))%Z)
  /\ (forall (dt : Q) (g : Rng),
         exists rt' g',
           update rt dt g = Some (rt', g')
           /\ (0 <= lives (state rt'))%Z
           /\ (lives (state rt') = 0%Z -> lives (state rt) <> 0%Z ->
               screen (state rt') = gameOver)).
Proof.
  intros Hr. pose proof (reachable_inv rt Hr) as Hinv.
  pose proof Hinv as (_ & Hlv & Hplay).
  split; [exact Hlv|]. split; [exact Hplay|].
  intros dt g.
  destruct (update_inv rt dt g Hinv) as (rt' & g' & Hu & (_ & Hlv' & _) & Hz).
  exists rt', g'. auto.
Qed.

Lemma lives_never_negative_witness :
  (0 <= lives (state lateRound))%Z
  /\ (screen (state lateRound) = playing -> (0 < lives (state lateRound))%Z)
  /\ (forall (dt : Q) (g : Rng),
         exists rt' g',
           update lateRound dt g = Some (rt', g')
           /\ (0 <= lives (state rt'))%Z
           /\ (lives (state rt') = 0%Z -> lives (state lateRound) <> 0%Z ->
               screen (state rt') = gameOver)).
Proof.
  apply (lives_never_negative lateRound).
  apply (run_reachable [OnStart; OnStartGame; Frame 10 halfDraws]
           initialRuntime lateRound reachable_initial).
  vm_compute. reflexivity.
Defined.

(** In [lateRound] one life is left; the next long frame takes it and ends
    the round. *)
Example lateRound_last_life :
  lives (state lateRound) = 1%Z
  /\ screen (state lateRound) = playing
  /\ option_map (fun r => (lives (state (fst r)), screen (state (fst r))))
       (update lateRound 10 halfDraws)
     = Some (0%Z, gameOver).
Proof. vm_compute. repeat split; reflexivity. Qed.

(** ** The selected character *)

Lemma selectCharacter_out_of_range (s : GameState) (k : Z) :
  ~ (0 <= k < CHARACTERS_length)%Z -> selectCharacter s k = s.
Proof.
  intros H. unfold selectCharacter.
  destruct (0 <=? k)%Z eqn:E1; destruct (k <? CHARACTERS_length)%Z eqn:E2;
    simpl; try reflexivity.
  apply Z.leb_le in E1. apply Z.ltb_lt in E2. lia.
Qed.

(** C10: on a session whose index is in [[0, CHARACTERS.length)] every
    operation succeeds and leaves the index in that range: the initial
    state, the update of the character menu, which moves the index by one
    step modulo the size of the catalog per flag, [selectCharacter], which
    changes nothing for an argument out of range, [beginPlay], the frame of
    play and the update of the game-over screen. *)
Theorem selectedCharacterIndex_in_range (s : GameState) :
  indexInRange s ->
  indexInRange createInitialState
  /\ (forall (i : InputState) (dt : Q),
         exists s' i',
           updateCharacterSelect s i dt = Some (s', i')
           /\ indexInRange s'
           /\ selectedCharacterIndex s' = cycled i (selectedCharacterIndex s))
  /\ (forall k : Z, indexInRange (selectCharacter s k))
  /\ (forall k : Z,
         ~ (0 <= k < CHARACTERS_length)%Z -> selectCharacter s k = s)
  /\ (exists s', beginPlay s = Some s' /\ indexInRange s')
  /\ (forall (rt : GameRuntime) (dt : Q) (g : Rng),
         state rt = s ->
         exists rt' g',
           updatePlaying rt dt g = Some (rt', g') /\ indexInRange (state rt'))
  /\ (forall i : InputState,
         exists s' i', updateGameOver s i = Some (s', i') /\ indexInRange s').
Proof.
  intros H. split; [|split; [|split; [|split; [|split; [|split]]]]].
  - unfold indexInRange. rewrite CHARACTERS_length_4. simpl. lia.
  - intros i dt.
    destruct (updateCharacterSelect_inv s i dt H)
      as (s' & i' & Hu & Hc & Hi & _).
    exists s', i'. auto.
  - intro k. apply (selectCharacter_inv s k H).
  - intro k. apply selectCharacter_out_of_range.
  - destruct (beginPlay_inv s H) as (s' & Hb & Hi & _).
    exists s'. split; [exact Hb|]. unfold indexInRange. rewrite Hi. exact H.
  - intros rt dt g <-.
    destruct (updatePlaying_inv rt dt g) as (rt' & g' & Hu & Hi & _).
    exists rt', g'. split; [exact Hu|]. unfold indexInRange. rewrite Hi. exact H.
  - intros i.
    destruct (updateGameOver_inv s i H) as (s' & i' & Hu & Hi & _).
    exists s', i'. split; [exact Hu|]. unfold indexInRange. rewrite Hi. exact H.
Qed.

Lemma selectedCharacterIndex_in_range_witness :
  indexInRange createInitialState
  /\ (forall (i : InputState) (dt : Q),
         exists s' i',
           updateCharacterSelect midRound i dt = Some (s', i')
           /\ indexInRange s'
           /\ selectedCharacterIndex s'
              = cycled i (selectedCharacterIndex midRound))
  /\ (forall k : Z, indexInRange (selectCharacter midRound k))
  /\ (forall k : Z,
         ~ (0 <= k < CHARACTERS_length)%Z -> selectCharacter midRound k = midRound)
  /\ (exists s', beginPlay midRound = Some s' /\ indexInRange s')
  /\ (forall (rt : GameRuntime) (dt : Q) (g : Rng),
         state rt = midRound ->
         exists rt' g',
           updatePlaying rt dt g = Some (rt', g') /\ indexInRange (state rt'))
  /\ (forall i : InputState,
         exists s' i',
           updateGameOver midRound i = Some (s', i') /\ indexInRange s').
Proof.
  apply (selectedCharacterIndex_in_range midRound).
  unfold indexInRange, CHARACTERS_length; simpl. lia.
Defined.

(** Cycling wraps at both ends of the catalog. *)
Example cycling_wraps :
  option_map (fun r => selectedCharacterIndex (fst r))
    (updateCharacterSelect createInitialState
       (keyDown "ArrowLeft" createInputState) 0.016) = Some 3%Z
  /\ option_map (fun r => selectedCharacterIndex (fst r))
       (updateCharacterSelect (set_selectedCharacterIndex createInitialState 3)
          (keyDown "KeyD" createInputState) 0.016) = Some 0%Z.
Proof. split; reflexivity. Qed.

(** The index of every reachable session selects a character. *)
Corollary reachable_index_in_range (rt : GameRuntime) :
  reachable rt -> indexInRange (state rt).
Proof. intro H. apply (reachable_inv rt H). Qed.

(** * Further properties of the code *)

Ltac qinv_closed :=
  unfold Qdiv in *;
  repeat match goal with
    | |- context [Qinv ?c] =>
        let v := eval vm_compute in (Qinv c) in change (Qinv c) with v
    | H : context [Qinv ?c] |- _ =>
        let v := eval vm_compute in (Qinv c) in change (Qinv c) with v in H
    end.

Ltac unfold_curve :=
  unfold getDifficulty, leb, geb; simpl; unfold leb, geb, interpolate; simpl.

(** X2: at every time the spawn rate lies between the first and the last
    keyframe's, 0.6 and 3 items per second, and the speed multiplier between
    0.8 and 1.6; so the spawn rate is always positive. *)
Lemma getDifficulty_bounds (t : Q) :
  0.6 <= d_spawnRate (getDifficulty t) <= 3.0
  /\ 0.8 <= d_speedMultiplier (getDifficulty t) <= 1.6.
Proof.
  unfold_curve. qcases; qinv_closed; repeat split; lra.
Qed.

(** X3: the difficulty never goes down: a later time has a spawn rate and a
    speed multiplier at least as high. *)
Lemma getDifficulty_monotone (t1 t2 : Q) :
  t1 <= t2 ->
  d_spawnRate (getDifficulty t1) <= d_spawnRate (getDifficulty t2)
  /\ d_speedMultiplier (getDifficulty t1) <= d_speedMultiplier (getDifficulty t2).
Proof.
  intros H. unfold_curve. qcases; qinv_closed; split; lra.
Qed.

(** X1: at or before time 0 [getDifficulty] returns the first keyframe, and
    from the time of the last keyframe on the values of the last one. *)
Theorem getDifficulty_clamped (t : Q) :
  (t <= 0 ->
   getDifficulty t = ofKeyframe (hd zeroKeyframe DIFFICULTY_CURVE))
  /\ (time (last DIFFICULTY_CURVE zeroKeyframe) <= t ->
      d_spawnRate (getDifficulty t)
      == spawnRate (last DIFFICULTY_CURVE zeroKeyframe)
      /\ d_speedMultiplier (getDifficulty t)
         == speedMultiplier (last DIFFICULTY_CURVE zeroKeyframe)).
Proof.
  split.
  - intros H. unfold getDifficulty, leb.
    apply Qle_bool_iff in H. rewrite H. reflexivity.
  - simpl. intros H. unfold_curve. qcases; qinv_closed; split; lra.
Qed.

(** X4: the curve passes through its keyframes: at the time of a keyframe
    [getDifficulty] returns the values of that keyframe. *)
Theorem getDifficulty_at_keyframes (k : DifficultyKeyframe) :
  In k DIFFICULTY_CURVE ->
  d_spawnRate (getDifficulty (time k)) == spawnRate k
  /\ d_speedMultiplier (getDifficulty (time k)) == speedMultiplier k.
Proof.
  simpl. intros H.
  repeat (destruct H as [<- | H]; [split; vm_compute; reflexivity|]).
  contradiction.
Qed.

(** X5: [aabbIntersect] does not depend on the order of its arguments. *)
Theorem aabbIntersect_symmetric (a b : Rect) :
  aabbIntersect a b = aabbIntersect b a.
Proof.
  unfold aabbIntersect, gtb. f_equal.
  destruct (ltb (x a + width a) (x b)), (ltb (x b + width b) (x a)),
    (ltb (y a + height a) (y b)), (ltb (y b + height b) (y a)); reflexivity.
Qed.

(** X6: for a draw in [[0, 1]] and an item type that fits between the
    margins, the new item lies inside the margins of the field, with or
    without a previous spawn x and wherever that was; it starts just above
    the field, falls with the base speed of its type, and one draw is used. *)
Theorem createFallingItem_in_field
    (ty : ItemTypeConfig) (canvasWidth : Q) (lastX : option Q) (g : Rng) :
  0 <= draws g (cursor g) <= 1 ->
  nullish (it_width ty) 12 + 24 <= canvasWidth ->
  let item := fst (createFallingItem ty canvasWidth lastX g) in
  12 <= x item
  /\ x item + width item <= canvasWidth - 12
  /\ y item + height item == 0
  /\ vy item = baseFallSpeed ty
  /\ type item = ty
  /\ cursor (snd (createFallingItem ty canvasWidth lastX g)) = S (cursor g).
Proof.
  intros [Hr0 Hr1] Hfit. unfold createFallingItem, Math_random.
  cbv zeta. cbn [fst snd x y width height vy type i_rect cursor].
  generalize dependent (nullish (it_width ty) 12). intros w Hfit.
  set (r := draws g (cursor g)) in *.
  assert (Hx0 : 12 <= r * (canvasWidth - w - 12 - 12) + 12
                /\ r * (canvasWidth - w - 12 - 12) + 12 <= canvasWidth - w - 12).
  { split; nra. }
  generalize dependent (r * (canvasWidth - w - 12 - 12) + 12). intros x0 [Hlo Hhi].
  split; [|split; [|split; [ring|repeat split]]];
    destruct lastX as [lastX|]; try assumption; try lra;
    unfold gtb, ltb, Math_abs, Math_max, Math_min, Math_sign, ltb;
    qcases; lra.
Qed.

Lemma find_in_catalog (p : ItemTypeConfig -> bool) (ty : ItemTypeConfig) :
  find p ITEM_TYPES = Some ty -> In ty ITEM_TYPES.
Proof. intro H. apply (find_some _ _ H). Qed.

Lemma pickItemType_in_catalog (s : GameState) (g : Rng) (ty : ItemTypeConfig)
    (s' : GameState) (g' : Rng) :
  pickItemType s g = (Some ty, s', g') -> In ty ITEM_TYPES.
Proof.
  unfold pickItemType. rewrite find_bomb.
  set (pr := if (selectedCharacterIndex s =? 1)%Z then _ else _).
  destruct pr as [b [r|]];
    destruct (find (fun t => (it_id t =? b)%string) ITEM_TYPES) as [tb|] eqn:Eb;
    try destruct (find (fun t => (it_id t =? r)%string) ITEM_TYPES) as [tr|] eqn:Er;
    cbv beta iota zeta;
    repeat match goal with
      | |- context [Math_random ?g0] => destruct (Math_random g0)
      | |- context [if ?c then _ else _] => destruct c
      end;
    intros H; injection H as <- _ _;
    try (eapply find_in_catalog; eassumption);
    simpl; tauto.
Qed.

(** X8: [pickItemType] never returns [undefined]: it returns an entry of the
    catalog, and it is the base item of the selected character, its rare
    item or the bomb; an index other than 1, 2 or 3 counts as the first
    character.  It draws at most two random numbers. *)
Theorem pickItemType_for_character (s : GameState) (g : Rng) :
  exists ty s' g',
    pickItemType s g = (Some ty, s', g')
    /\ In ty ITEM_TYPES
    /\ In (it_id ty)
          (if (selectedCharacterIndex s =? 1)%Z then ["itemB"; "itemF"; "bomb"]
           else if (selectedCharacterIndex s =? 2)%Z then ["itemC"; "itemD"; "bomb"]
           else if (selectedCharacterIndex s =? 3)%Z then ["itemG"; "itemH"; "bomb"]
           else ["itemA"; "itemE"; "bomb"])
    /\ (cursor g <= cursor g' <= cursor g + 2)%nat.
Proof.
  unfold pickItemType. rewrite find_bomb.
  destruct (selectedCharacterIndex s =? 1)%Z;
    [|destruct (selectedCharacterIndex s =? 2)%Z;
      [|destruct (selectedCharacterIndex s =? 3)%Z]];
    cbv beta iota zeta;
    match goal with
    | |- context [find ?p ITEM_TYPES] =>
        let v := eval vm_compute in (find p ITEM_TYPES) in
        change (find p ITEM_TYPES) with v
    end;
    match goal with
    | |- context [find ?p ITEM_TYPES] =>
        let v := eval vm_compute in (find p ITEM_TYPES) in
        change (find p ITEM_TYPES) with v
    end;
    cbv beta iota zeta; unfold Math_random;
    repeat match goal with
      | |- context [if ?c then _ else _] => destruct c
      end;
    do 3 eexists; (split; [reflexivity|]); simpl;
    (split; [tauto|split; [tauto|lia]]).
Qed.

(** [pickItemType] with the lookups in the catalog done: [tb] and [tr] are
    the base and the rare item of the character. *)
Lemma pickItemType_shape (s : GameState) (g : Rng) :
  exists tb tr,
    truthy (isHazard tb) = false /\ truthy (isHazard tr) = false
    /\ pickItemType s g =
       (let t := elapsedTime s in
        let bombChance :=
          if geb t 5 then
            if xltb (xsub t (lastBombTime s)) 1.2 then 0
            else Math_min 0.09
                   (Math_max 0 (0.03 + Math_min 1 ((t - 5) / 45) * (0.09 - 0.03)))
          else 0 in
        let '(isBomb, g1) :=
          if gtb bombChance 0
          then (ltb (draws g (cursor g)) bombChance,
                mkRng (draws g) (S (cursor g)))
          else (false, g) in
        if isBomb then (Some bombItem, set_lastBombTime s (Finite t), g1)
        else if ltb (draws g1 (cursor g1)) RARE_ITEM_CHANCE
             then (Some tr, s, mkRng (draws g1) (S (cursor g1)))
             else (Some tb, s, mkRng (draws g1) (S (cursor g1)))).
Proof.
  unfold pickItemType. rewrite find_bomb.
  assert (Hpair : exists b r,
             In b ["itemA"; "itemB"; "itemC"; "itemD";
                   "itemE"; "itemF"; "itemG"; "itemH"]
             /\ In r ["itemA"; "itemB"; "itemC"; "itemD";
                      "itemE"; "itemF"; "itemG"; "itemH"]
             /\ (if (selectedCharacterIndex s =? 1)%Z then ("itemB", Some "itemF")
                 else if (selectedCharacterIndex s =? 2)%Z then ("itemC", Some "itemD")
                 else if (selectedCharacterIndex s =? 3)%Z then ("itemG", Some "itemH")
                 else ("itemA", Some "itemE")) = (b, Some r)).
  { destruct (selectedCharacterIndex s =? 1)%Z;
      [|destruct (selectedCharacterIndex s =? 2)%Z;
        [|destruct (selectedCharacterIndex s =? 3)%Z]];
      do 2 eexists; (split; [|split; [|reflexivity]]); simpl; tauto. }
  destruct Hpair as (b & r & Hb & Hr & ->).
  destruct (find_plain b Hb) as (tb & -> & Htb).
  destruct (find_plain r Hr) as (tr & -> & Htr).
  exists tb, tr. split; [exact Htb|]. split; [exact Htr|].
  cbv beta iota zeta. unfold Math_random.
  repeat match goal with
         | |- context [if ?c then _ else _] => destruct c
         end; reflexivity.
Qed.

(** X9: the chance of a bomb is never above 9%, and at least 3% once it is
    eligible: a first draw of 0.09 or more never gives the bomb, and from 5s
    on, with the cooldown over, a first draw below 0.03 always gives it and
    records the time. *)
Theorem pickItemType_bomb_chance (s : GameState) (g : Rng) :
  (0.09 <= draws g (cursor g) ->
   exists ty g',
     pickItemType s g = (Some ty, s, g') /\ truthy (isHazard ty) = false)
  /\ (5 <= elapsedTime s -> cooldownOver s -> draws g (cursor g) < 0.03 ->
      pickItemType s g
      = (Some bombItem, set_lastBombTime s (Finite (elapsedTime s)),
         mkRng (draws g) (S (cursor g)))).
Proof.
  destruct (pickItemType_shape s g) as (tb & tr & Htb & Htr & ->).
  cbv zeta. unfold cooldownOver.
  split.
  - intros Hr.
    unfold gtb, ltb, geb, Math_min, Math_max, xltb, xsub, ltb;
      destruct (lastBombTime s); cbn [negb];
      qcases; qinv_closed; try (exfalso; lra);
      do 2 eexists; split; first [reflexivity | assumption].
  - intros Ht Hcd Hr.
    unfold gtb, ltb, geb, Math_min, Math_max, xltb, xsub, ltb;
      destruct (lastBombTime s); try contradiction; cbn [negb];
      qcases; qinv_closed; try (exfalso; lra); reflexivity.
Qed.

(** What one pass of the loop body does, step by step. *)
Lemma spawnBody_detail (diff : Difficulty) (iv : Q) (s : GameState) (g : Rng)
    (s' : GameState) (g' : Rng) :
  spawnBody diff iv s g = Some (s', g') ->
  exists ty s2 g1 item,
    pickItemType (set_spawnAccumulator s (spawnAccumulator s - iv)) g
    = (Some ty, s2, g1)
    /\ createFallingItem ty (cfg_width GAME_CONFIG) (Some (lastSpawnX s2)) g1
       = (item, g')
    /\ s' = set_lastSpawnX
              (set_items s2
                 (items s2 ++ [ {| i_rect := i_rect item;
                                   vy := vy item * d_speedMultiplier diff;
                                   type := type item |} ]))
              (x item).
Proof.
  unfold spawnBody.
  destruct (pickItemType (set_spawnAccumulator s (spawnAccumulator s - iv)) g)
    as [[[ty|] s2] g1]; [|discriminate].
  destruct (createFallingItem ty (cfg_width GAME_CONFIG) (Some (lastSpawnX s2)) g1)
    as [item g2] eqn:Hc.
  intros H. injection H as <- <-.
  exists ty, s2, g1, item. repeat split; assumption.
Qed.

(** The rule of the [while] loop: what holds before the loop and is kept by
    every pass of the body holds after the loop, where the condition fails. *)
Lemma spawnLoop_rule (diff : Difficulty) (iv : Q)
    (I : nat -> GameState -> Rng -> Prop) :
  (forall n s g s' g',
      I n s g -> spawnCondition iv n s = true ->
      spawnBody diff iv s g = Some (s', g') -> I (S n) s' g') ->
  forall k n s g s' g',
    (MAX_SPAWNS_PER_FRAME - n = k)%nat ->
    I n s g -> spawnLoop diff iv n s g = Some (s', g') ->
    exists n', I n' s' g' /\ spawnCondition iv n' s' = false.
Proof.
  intros Hstep. induction k as [|k IH]; intros n s g s' g' Hk HI;
    rewrite spawnLoop_step.
  - assert (Hc : spawnCondition iv n s = false).
    { unfold spawnCondition. apply andb_false_intro2.
      apply Nat.ltb_ge. lia. }
    rewrite Hc. intros H. injection H as <- <-. exists n. auto.
  - destruct (spawnCondition iv n s) eqn:Hc.
    + destruct (spawnBody diff iv s g) as [[s1 g1]|] eqn:Hb; [|discriminate].
      apply (IH (S n) s1 g1 s' g'); [lia|].
      apply (Hstep n s g s1 g1); assumption.
    + intros H. injection H as <- <-. exists n. auto.
Qed.

Lemma fromCatalog_created (ty : ItemTypeConfig) (w : Q) (l : option Q) (g : Rng)
    (m : Q) :
  In ty ITEM_TYPES ->
  let item := fst (createFallingItem ty w l g) in
  fromCatalog {| i_rect := i_rect item; vy := vy item * m; type := type item |}.
Proof.
  intros H. unfold createFallingItem. destruct (Math_random g). 
  cbv zeta. unfold fromCatalog. simpl. auto.
Qed.

Lemma pickItemType_cooldownOn (s : GameState) (g : Rng) :
  cooldownOn s ->
  exists ty g', pickItemType s g = (Some ty, s, g') /\ truthy (isHazard ty) = false.
Proof.
  intros H.
  destruct (pickItemType_cases s g) as (ty & g' & [Hok | (_ & _ & _ & Hcd)]).
  - exists ty, g'. exact Hok.
  - exfalso. unfold cooldownOn in H. rewrite H in Hcd. simpl in Hcd.
    apply ltb_false in Hcd. lra.
Qed.

Lemma hazardCount_app (l1 l2 : list FallingItem) :
  hazardCount (l1 ++ l2) = (hazardCount l1 + hazardCount l2)%nat.
Proof. unfold hazardCount. rewrite filter_app, length_app. reflexivity. Qed.

Lemma createFallingItem_type (ty : ItemTypeConfig) (w : Q) (l : option Q)
    (g : Rng) :
  type (fst (createFallingItem ty w l g)) = ty
  /\ width (fst (createFallingItem ty w l g)) = nullish (it_width ty) 12
  /\ height (fst (createFallingItem ty w l g)) = nullish (it_height ty) 12.
Proof.
  unfold createFallingItem. destruct (Math_random g). repeat split.
Qed.

(** What the loop of the scheduler keeps, pass after pass: the items are
    the former ones followed by new ones from the catalog; at most one of
    the new ones is a bomb, and once there is one the cooldown is on. *)
Lemma spawnLoop_new_items (diff : Difficulty) (iv : Q) (s0 : GameState)
    (g0 : Rng) (s' : GameState) (g' : Rng) :
  spawnLoop diff iv 0 s0 g0 = Some (s', g') ->
  exists new,
    items s' = items s0 ++ new
    /\ Forall fromCatalog new
    /\ (hazardCount new <= 1)%nat
    /\ (hazardCount new = 1%nat ->
        lastBombTime s' = Finite (elapsedTime s0)
        /\ 5 <= elapsedTime s0
        /\ xltb (xsub (elapsedTime s0) (lastBombTime s0)) 1.2 = false)
    /\ (hazardCount new = 0%nat -> lastBombTime s' = lastBombTime s0).
Proof.
  intros H.
  destruct (spawnLoop_rule diff iv
              (fun _ s _ =>
                 elapsedTime s = elapsedTime s0
                 /\ exists new,
                     items s = items s0 ++ new
                     /\ Forall fromCatalog new
                     /\ ((hazardCount new = 0%nat
                          /\ lastBombTime s = lastBombTime s0)
                         \/ (hazardCount new = 1%nat /\ cooldownOn s
                             /\ 5 <= elapsedTime s0
                             /\ xltb (xsub (elapsedTime s0) (lastBombTime s0)) 1.2
                                = false))))
    with (k := MAX_SPAWNS_PER_FRAME) (n := 0%nat) (s := s0) (g := g0)
         (s' := s') (g' := g') as (n' & (Ht & new & Hi & Hcat & Hhz) & _);
    try assumption; try reflexivity.
  - clear H. intros n s g s1 g1 (Ht & new & Hi & Hcat & Hhz) _ Hb.
    apply spawnBody_detail in Hb.
    destruct Hb as (ty & s2 & g2 & item & Hp & Hc & ->).
    pose proof (pickItemType_in_catalog _ _ _ _ _ Hp) as Hin.
    pose proof (createFallingItem_type ty (cfg_width GAME_CONFIG)
                  (Some (lastSpawnX s2)) g2) as (Hty & Hw & Hh).
    rewrite Hc in Hty, Hw, Hh. cbn [fst] in Hty, Hw, Hh.
    set (acc := set_spawnAccumulator s (spawnAccumulator s - iv)) in *.
    assert (Hnew1 : fromCatalog
                      {| i_rect := item; vy := vy item * d_speedMultiplier diff;
                         type := type item |}).
    { unfold fromCatalog. cbn [type width height i_rect].
      rewrite Hty. auto. }
    destruct Hhz as [[Hz Hl] | (Hone & Hcd & Hfive & Hover)].
    + destruct (pickItemType_cases acc g)
        as (ty' & g3 & [[Hp' Hnh] | (Hp' & Hh' & H5 & Hcdf)]);
        rewrite Hp' in Hp; injection Hp as <- <- <-;
        cbn [elapsedTime items lastBombTime set_lastSpawnX set_items
             set_lastBombTime set_spawnAccumulator acc];
        (split; [exact Ht|]);
        exists (new ++ [ {| i_rect := item;
                            vy := vy item * d_speedMultiplier diff;
                            type := type item |} ]);
        (split; [rewrite Hi, app_assoc; reflexivity|]);
        (split; [apply Forall_app; split; [exact Hcat|constructor; [exact Hnew1|constructor]]|]);
        rewrite hazardCount_app, Hz; unfold hazardCount; cbn [filter type];
        rewrite Hty.
      * rewrite Hnh. left. split; [reflexivity|exact Hl].
      * rewrite Hh'. right. split; [reflexivity|].
        split; [unfold cooldownOn; reflexivity|].
        cbn [elapsedTime lastBombTime set_spawnAccumulator acc] in H5, Hcdf.
        rewrite Ht, Hl in Hcdf. rewrite Ht in H5. auto.
    + assert (Hcd' : cooldownOn acc) by exact Hcd.
      destruct (pickItemType_cooldownOn acc g Hcd') as (ty' & g3 & Hp' & Hnh).
      rewrite Hp' in Hp; injection Hp as <- <- <-.
      cbn [elapsedTime items lastBombTime set_lastSpawnX set_items
           set_spawnAccumulator acc].
      split; [exact Ht|].
      exists (new ++ [ {| i_rect := item;
                          vy := vy item * d_speedMultiplier diff;
                          type := type item |} ]).
      split; [rewrite Hi, app_assoc; reflexivity|].
      split; [apply Forall_app; split; [exact Hcat|constructor; [exact Hnew1|constructor]]|].
      rewrite hazardCount_app, Hone; unfold hazardCount; cbn [filter type].
      rewrite Hty, Hnh. right. auto.
  - split; [reflexivity|]. exists []. rewrite app_nil_r.
    split; [reflexivity|]. split; [constructor|]. left. split; reflexivity.
  - exists new. split; [exact Hi|]. split; [exact Hcat|].
    destruct Hhz as [[Hz Hl] | (Hone & Hcd & Hfive & Hover)].
    + rewrite Hz. split; [lia|]. split; [discriminate|]. intros _. exact Hl.
    + rewrite Hone. split; [lia|]. split; [|discriminate]. intros _.
      unfold cooldownOn in Hcd. rewrite Hcd, Ht. auto.
Qed.

Lemma cooldownOver_iff (s : GameState) :
  xltb (xsub (elapsedTime s) (lastBombTime s)) 1.2 = false <-> cooldownOver s.
Proof.
  unfold cooldownOver. destruct (lastBombTime s); simpl.
  - split; intro; [exact I|reflexivity].
  - apply ltb_false.
  - split; [discriminate|contradiction].
Qed.

(** What the scheduler adds is made from the catalog. *)
Lemma spawnScheduler_catalog (diff : Difficulty) (s : GameState) (dt : Q)
    (g : Rng) :
  exists s' g' new,
    spawnScheduler diff s dt g = Some (s', g')
    /\ items s' = items s ++ new
    /\ Forall fromCatalog new.
Proof.
  destruct (spawnScheduler_bounded diff s dt g)
    as (s' & g' & new0 & H & _).
  exists s', g'. unfold spawnScheduler in *.
  destruct (gtb (d_spawnRate diff) 0).
  - destruct (spawnLoop_new_items _ _ _ _ _ _ H)
      as (new & Hi & Hcat & _).
    exists new. split; [exact H|]. split; [exact Hi|exact Hcat].
  - injection H as <- <-. exists []. simpl. rewrite app_nil_r.
    split; [reflexivity|]. split; [reflexivity|constructor].
Qed.

(** X10: the scheduler never throws, the items it adds are made from the
    catalog, and at most one of them is a bomb; if there is one, the clock
    is at 5s or later, the cooldown was over, and the bomb time is set to
    the clock; if there is none the bomb time is left alone. *)
Theorem spawnScheduler_one_bomb (diff : Difficulty) (s : GameState) (dt : Q)
    (g : Rng) :
  exists s' g' new,
    spawnScheduler diff s dt g = Some (s', g')
    /\ items s' = items s ++ new
    /\ Forall fromCatalog new
    /\ (hazardCount new <= 1)%nat
    /\ (hazardCount new = 1%nat ->
        5 <= elapsedTime s /\ cooldownOver s
        /\ lastBombTime s' = Finite (elapsedTime s))
    /\ (hazardCount new = 0%nat -> lastBombTime s' = lastBombTime s).
Proof.
  destruct (spawnScheduler_bounded diff s dt g)
    as (s' & g' & new0 & H & _).
  exists s', g'. unfold spawnScheduler in *.
  destruct (gtb (d_spawnRate diff) 0).
  - destruct (spawnLoop_new_items _ _ _ _ _ _ H)
      as (new & Hi & Hcat & Hle & Hone & Hzero).
    exists new. split; [exact H|]. split; [exact Hi|].
    split; [exact Hcat|]. split; [exact Hle|]. split; [|exact Hzero].
    intros H1. destruct (Hone H1) as (Hl & H5 & Hcd).
    split; [exact H5|]. split; [|exact Hl].
    apply cooldownOver_iff. exact Hcd.
  - injection H as <- <-. exists []. simpl. rewrite app_nil_r.
    split; [reflexivity|]. split; [reflexivity|]. split; [constructor|].
    split; [unfold hazardCount; simpl; lia|].
    split; [intro H0; discriminate H0|reflexivity].
Qed.

Section ItemLoopMore.

Variables (p : Player) (dt groundY : Q).

Lemma itemLoop_survivors (its : list FallingItem) :
  forall (s : GameState) (remaining : list FallingItem),
    Forall (inFlight p groundY) remaining ->
    Forall (inFlight p groundY) (snd (itemLoop p dt groundY its s remaining)).
Proof.
  induction its as [|item rest IH]; intros s remaining Hrem;
    cbn [itemLoop]; cbv zeta; [exact Hrem|].
  destruct (aabbIntersect p (moveItem item dt)) eqn:Hhit.
  - destruct (truthy (isHazard (type (moveItem item dt))));
      [exact Hrem|apply IH; exact Hrem].
  - destruct (geb (y (moveItem item dt) + height (moveItem item dt)) groundY)
      eqn:Hg.
    + destruct (truthy (isHazard (type (moveItem item dt)))); cbn [negb];
        [apply IH; exact Hrem|].
      match goal with
      | |- context [if ?c then _ else _] => destruct c
      end; [exact Hrem|apply IH; exact Hrem].
    + apply IH. apply Forall_app. split; [exact Hrem|].
      constructor; [|constructor]. split; [|exact Hhit].
      unfold geb in Hg. apply Qle_bool_false in Hg. exact Hg.
Qed.

Lemma itemLoop_score_lives (its : list FallingItem) :
  forall (s : GameState) (remaining : list FallingItem),
    Forall (fun it => (0 <= scoreValue (type it))%Z) its ->
    (score s <= score (fst (itemLoop p dt groundY its s remaining)))%Z
    /\ ((0 <= lives s)%Z ->
        (lives (fst (itemLoop p dt groundY its s remaining)) <= lives s)%Z).
Proof.
  induction its as [|item rest IH]; intros s remaining Hsc;
    cbn [itemLoop]; cbv zeta; [simpl; lia|].
  inversion Hsc as [|? ? Hitem Hrest]; subst.
  destruct (aabbIntersect p (moveItem item dt)).
  - destruct (truthy (isHazard (type (moveItem item dt)))).
    + simpl. lia.
    + destruct (IH (set_score s (score s + scoreValue (type (moveItem item dt))))
                  remaining Hrest) as [H1 H2].
      cbn [score lives set_score] in H1, H2.
      change (type (moveItem item dt)) with (type item) in *.
      split; [lia|]. intros Hl. specialize (H2 Hl). lia.
  - destruct (geb _ groundY).
    + destruct (truthy (isHazard (type (moveItem item dt)))); cbn [negb].
      * apply IH. exact Hrest.
      * change (lives (set_missEffects (set_lives s (lives s - 1)) _))
          with (lives s - 1)%Z.
        destruct (lives s - 1 <=? 0)%Z eqn:E.
        -- simpl. lia.
        -- apply Z.leb_gt in E.
           match goal with
           | |- context [itemLoop p dt groundY rest ?s1 ?r1] =>
               destruct (IH s1 r1 Hrest) as [H1 H2]
           end.
           cbn [score lives set_missEffects set_lives] in H1, H2.
           split; [lia|]. intros Hl. specialize (H2 ltac:(lia)). lia.
    + apply IH. exact Hrest.
Qed.

(** X14: bombs that do not touch the player change nothing, on the ground
    or in flight: the loop over them leaves score, lives, screen and miss
    effects as they were. *)
Lemma itemLoop_hazards_only (its : list FallingItem) :
  forall (s : GameState) (remaining : list FallingItem),
    Forall (fun it => truthy (isHazard (type it)) = true
                      /\ aabbIntersect p (moveItem it dt) = false) its ->
    fst (itemLoop p dt groundY its s remaining) = s.
Proof.
  induction its as [|item rest IH]; intros s remaining Hall;
    cbn [itemLoop]; cbv zeta; [reflexivity|].
  inversion Hall as [|? ? [Hhz Hmiss] Hrest]; subst.
  rewrite Hmiss. change (type (moveItem item dt)) with (type item).
  rewrite Hhz. cbn [negb].
  destruct (geb _ groundY); apply IH; exact Hrest.
Qed.

End ItemLoopMore.

(** A frame of play on a session with a player, laid out. *)
Lemma updatePlaying_detail (rt : GameRuntime) (dt : Q) (g : Rng) (p0 : Player) :
  player (state rt) = Some p0 ->
  exists s2 g1 new,
    spawnScheduler (getDifficulty (elapsedTime (state rt) + dt))
      (set_elapsedTime
         (set_player (state rt) (Some (movePlayer p0 (input rt) dt)))
         (elapsedTime (state rt) + dt)) dt g = Some (s2, g1)
    /\ items s2 = items (state rt) ++ new
    /\ Forall fromCatalog new
    /\ player s2 = Some (movePlayer p0 (input rt) dt)
    /\ score s2 = score (state rt)
    /\ lives s2 = lives (state rt)
    /\ screen s2 = screen (state rt)
    /\ elapsedTime s2 = elapsedTime (state rt) + dt
    /\ missEffects s2 = missEffects (state rt)
    /\ updatePlaying rt dt g =
         Some ({| state :=
                    finishFrame
                      (itemLoop (movePlayer p0 (input rt) dt) dt groundLine
                                (items s2) s2 []) dt;
                  input := input rt;
                  spawnRateDebug :=
                    d_spawnRate (getDifficulty (elapsedTime (state rt) + dt)) |},
               g1).
Proof.
  intros Hp. unfold updatePlaying. rewrite Hp.
  cbn [elapsedTime set_elapsedTime set_player].
  match goal with
  | |- context [spawnScheduler ?d ?s0 dt g] =>
      destruct (spawnScheduler_catalog d s0 dt g)
        as (s2 & g1 & new & Hs & Hitems & Hcat);
      destruct (spawnScheduler_bounded d s0 dt g)
        as (s2' & g1' & new' & Hs' & _ & _ & Hsame)
  end.
  rewrite Hs in Hs'. injection Hs' as <- <-.
  destruct Hsame as (Hscr & Hpl & _ & Hsc & Hlv & Hel & Hfx).
  cbn [screen player score lives elapsedTime missEffects items
       set_elapsedTime set_player] in Hitems, Hscr, Hpl, Hsc, Hlv, Hel, Hfx.
  exists s2, g1, new. rewrite Hs.
  repeat (split; [first [reflexivity | assumption]|]).
  unfold finishFrame, groundLine.
  destruct (itemLoop _ dt (cfg_height GAME_CONFIG - 10) (items s2) s2 []).
  reflexivity.
Qed.

Lemma scoreValue_nonneg (ty : ItemTypeConfig) :
  In ty ITEM_TYPES -> (0 <= scoreValue ty)%Z.
Proof.
  simpl. intros H.
  repeat (destruct H as [<- | H]; [simpl; lia|]). contradiction.
Qed.

Lemma movePlayer_in_field (p : Player) (i : InputState) (dt : Q) :
  width p <= cfg_width GAME_CONFIG ->
  0 <= x (movePlayer p i dt) <= cfg_width GAME_CONFIG - width p.
Proof.
  intros H. unfold movePlayer, Math_max, Math_min. cbn [x p_rect].
  qcases; lra.
Qed.

Section MoreItemLoop.

Variables (p : Player) (dt groundY : Q).

(** The survivors are moved items of the array. *)
Lemma itemLoop_remaining_Forall (P : FallingItem -> Prop)
    (its : list FallingItem) :
  (forall it, P it -> P (moveItem it dt)) ->
  forall (s : GameState) (remaining : list FallingItem),
    Forall P its -> Forall P remaining ->
    Forall P (snd (itemLoop p dt groundY its s remaining)).
Proof.
  intros Hmove.
  induction its as [|item rest IH]; intros s remaining Hits Hrem;
    cbn [itemLoop]; cbv zeta; [exact Hrem|].
  inversion Hits as [|? ? Hitem Hrest]; subst.
  repeat match goal with
         | |- context [if ?c then _ else _] => destruct c
         end; try exact Hrem; apply IH; try assumption.
  apply Forall_app. split; [exact Hrem|]. constructor; [|constructor].
  apply Hmove. exact Hitem.
Qed.

Lemma itemLoop_screen (its : list FallingItem) :
  forall (s : GameState) (remaining : list FallingItem),
    screen (fst (itemLoop p dt groundY its s remaining)) = screen s
    \/ screen (fst (itemLoop p dt groundY its s remaining)) = gameOver.
Proof.
  induction its as [|item rest IH]; intros s remaining;
    cbn [itemLoop]; cbv zeta; [left; reflexivity|].
  repeat match goal with
         | |- context [if ?c then _ else _] => destruct c
         end; try (right; reflexivity);
    match goal with
    | |- context [itemLoop p dt groundY rest ?s1 ?r1] =>
        destruct (IH s1 r1) as [H | H]; [left | right]; exact H
    end.
Qed.

End MoreItemLoop.

Lemma finishFrame_fields (r : GameState * list FallingItem) (dt : Q) :
  items (finishFrame r dt) = snd r
  /\ player (finishFrame r dt) = player (fst r)
  /\ score (finishFrame r dt) = score (fst r)
  /\ elapsedTime (finishFrame r dt) = elapsedTime (fst r)
  /\ missEffects (finishFrame r dt) = ageMissEffects (missEffects (fst r)) dt.
Proof. repeat split. Qed.

(** X12: after a frame of play the player is the moved player, and every
    item that is left is above the ground line and does not overlap the
    player. *)
Theorem updatePlaying_survivors (rt : GameRuntime) (dt : Q) (g : Rng)
    (p0 : Player) :
  player (state rt) = Some p0 ->
  exists rt' g',
    updatePlaying rt dt g = Some (rt', g')
    /\ player (state rt') = Some (movePlayer p0 (input rt) dt)
    /\ Forall (inFlight (movePlayer p0 (input rt) dt) groundLine)
         (items (state rt')).
Proof.
  intros Hp.
  destruct (updatePlaying_detail rt dt g p0 Hp)
    as (s2 & g1 & new & _ & _ & _ & Hpl & _ & _ & _ & _ & _ & ->).
  do 2 eexists. split; [reflexivity|]. cbn [state].
  destruct (finishFrame_fields
              (itemLoop (movePlayer p0 (input rt) dt) dt groundLine
                        (items s2) s2 []) dt) as (-> & -> & _).
  split.
  - rewrite <- Hpl.
    apply (itemLoop_keeps (movePlayer p0 (input rt) dt) dt groundLine
                          (items s2) s2 []).
  - apply itemLoop_survivors. constructor.
Qed.

(** X13: when no item has a negative score value, a frame of play does not
    lower the score; from non-negative lives it does not raise the lives;
    and it advances the clock by exactly [dt]. *)
Theorem updatePlaying_score_lives (rt : GameRuntime) (dt : Q) (g : Rng)
    (p0 : Player) :
  player (state rt) = Some p0 ->
  Forall (fun it => (0 <= scoreValue (type it))%Z) (items (state rt)) ->
  exists rt' g',
    updatePlaying rt dt g = Some (rt', g')
    /\ (score (state rt) <= score (state rt'))%Z
    /\ ((0 <= lives (state rt))%Z ->
        (lives (state rt') <= lives (state rt))%Z)
    /\ elapsedTime (state rt') = elapsedTime (state rt) + dt.
Proof.
  intros Hp Hsc.
  destruct (updatePlaying_detail rt dt g p0 Hp)
    as (s2 & g1 & new & _ & Hitems & Hcat & _ & Hscore & Hlives & _ & Hel & _ & ->).
  do 2 eexists. split; [reflexivity|]. cbn [state].
  assert (Hall : Forall (fun it => (0 <= scoreValue (type it))%Z) (items s2)).
  { rewrite Hitems. apply Forall_app. split; [exact Hsc|].
    eapply Forall_impl; [|exact Hcat].
    intros it (Hin & _). apply scoreValue_nonneg. exact Hin. }
  destruct (itemLoop_score_lives (movePlayer p0 (input rt) dt) dt groundLine
              (items s2) s2 [] Hall) as [H1 H2].
  destruct (finishFrame_keeps
              (itemLoop (movePlayer p0 (input rt) dt) dt groundLine
                        (items s2) s2 []) dt) as (-> & _ & _).
  destruct (finishFrame_fields
              (itemLoop (movePlayer p0 (input rt) dt) dt groundLine
                        (items s2) s2 []) dt) as (_ & _ & -> & -> & _).
  rewrite <- Hscore, <- Hlives, <- Hel.
  split; [exact H1|]. split; [exact H2|].
  apply (itemLoop_keeps (movePlayer p0 (input rt) dt) dt groundLine
                        (items s2) s2 []).
Qed.

Lemma beginPlay_wellFormed (s s' : GameState) :
  beginPlay s = Some s' -> wellFormed s'.
Proof.
  unfold beginPlay, index.
  destruct (selectedCharacterIndex s <? 0)%Z; [discriminate|].
  destruct (nth_error CHARACTERS (Z.to_nat (selectedCharacterIndex s)))
    as [c|] eqn:Hc; [|discriminate].
  intros H. injection H as <-. apply nth_error_In in Hc.
  unfold wellFormed. cbn [screen player items score].
  split; [discriminate|]. split; [|split; [constructor|lia]].
  intros p Hp. injection Hp as <-.
  unfold playerInField, createPlayer.
  cbn [x y width height speed character p_rect cfg_width cfg_height GAME_CONFIG].
  repeat split; try (apply Qle_bool_iff; reflexivity);
    try (vm_compute; reflexivity).
  exact Hc.
Qed.

Lemma wellFormed_set_index (s : GameState) (k : Z) :
  wellFormed s -> wellFormed (set_selectedCharacterIndex s k).
Proof. intro H. exact H. Qed.

Lemma updateCharacterSelect_wellFormed (s : GameState) (i : InputState)
    (dt : Q) (s' : GameState) (i' : InputState) :
  wellFormed s -> updateCharacterSelect s i dt = Some (s', i') -> wellFormed s'.
Proof.
  intros Hwf. unfold updateCharacterSelect.
  destruct (left i); cbn [right set_left];
    destruct (right i); cbn [confirm set_right set_left];
    (destruct (confirm i);
     [ match goal with
       | |- context [beginPlay ?s0] =>
           destruct (beginPlay s0) as [s3|] eqn:Hb; [|discriminate];
           intros H; injection H as <- <-;
           apply (beginPlay_wellFormed _ _ Hb)
       end
     | intros H; injection H as <- <-; exact Hwf ]).
Qed.

Lemma updateGameOver_wellFormed (s : GameState) (i : InputState)
    (s' : GameState) (i' : InputState) :
  wellFormed s -> updateGameOver s i = Some (s', i') -> wellFormed s'.
Proof.
  intros Hwf. unfold updateGameOver.
  destruct (restart i).
  - destruct (beginPlay s) as [s3|] eqn:Hb; [|discriminate].
    intros H; injection H as <- <-. apply (beginPlay_wellFormed _ _ Hb).
  - destruct (back i); intros H; injection H as <- <-; [|exact Hwf].
    unfold wellFormed. cbn.
    split; [discriminate|]. split; [discriminate|].
    split; [constructor|lia].
Qed.

Lemma fromCatalog_moveItem (dt : Q) (it : FallingItem) :
  fromCatalog it -> fromCatalog (moveItem it dt).
Proof. intro H. exact H. Qed.

Lemma movePlayer_playerInField (p : Player) (i : InputState) (dt : Q) :
  playerInField p -> playerInField (movePlayer p i dt).
Proof.
  intros (Hx & Hy & Hw & Hh & Hs & Hc).
  unfold playerInField. cbn [y width height speed character movePlayer p_rect].
  split; [|auto].
  apply movePlayer_in_field. simpl. lra.
Qed.

Lemma updatePlaying_wellFormed (rt : GameRuntime) (dt : Q) (g : Rng)
    (rt' : GameRuntime) (g' : Rng) :
  wellFormed (state rt) ->
  updatePlaying rt dt g = Some (rt', g') -> wellFormed (state rt').
Proof.
  intros Hwf. pose proof Hwf as (Hpl & Hin & Hcat & Hsc).
  destruct (player (state rt)) as [p0|] eqn:Hp.
  - destruct (updatePlaying_detail rt dt g p0 Hp)
      as (s2 & g1 & new & _ & Hitems & Hnew & Hp2 & Hscore & _ & _ & _ & _ & ->).
    intros H. injection H as <- <-. cbn [state].
    set (p := movePlayer p0 (input rt) dt) in *.
    destruct (finishFrame_fields (itemLoop p dt groundLine (items s2) s2 []) dt)
      as (Hi & Hpf & Hsf & _ & _).
    pose proof (itemLoop_keeps p dt groundLine (items s2) s2 []) as (Hk & _).
    cbv zeta in Hk.
    unfold wellFormed. rewrite Hi, Hpf, Hsf, Hk, Hp2.
    split; [discriminate|]. split; [|split].
    + intros q Hq. injection Hq as <-.
      apply movePlayer_playerInField. apply Hin. reflexivity.
    + apply itemLoop_remaining_Forall;
        [apply fromCatalog_moveItem| |constructor].
      rewrite Hitems. apply Forall_app. split; assumption.
    + assert (Hall : Forall (fun it => (0 <= scoreValue (type it))%Z) (items s2)).
      { rewrite Hitems. apply Forall_app. split.
        - eapply Forall_impl; [|exact Hcat].
          intros it (Hin' & _). apply scoreValue_nonneg. exact Hin'.
        - eapply Forall_impl; [|exact Hnew].
          intros it (Hin' & _). apply scoreValue_nonneg. exact Hin'. }
      destruct (itemLoop_score_lives p dt groundLine (items s2) s2 [] Hall)
        as [H1 _].
      lia.
  - unfold updatePlaying. rewrite Hp. intros H. injection H as <- <-.
    exact Hwf.
Qed.

Lemma handle_wellFormed (rt : GameRuntime) (e : Event) (rt' : GameRuntime) :
  wellFormed (state rt) -> handle rt e = Some rt' -> wellFormed (state rt').
Proof.
  intros Hwf. pose proof Hwf as (Hpl & Hin & Hcat & Hsc).
  destruct e as [dt g|code|code| |k| | | ]; cbn [handle].
  - unfold update. destruct (screen (state rt)) eqn:Hscr.
    + intros H. injection H as <-. exact Hwf.
    + destruct (updateCharacterSelect (state rt) (input rt) dt)
        as [[s i]|] eqn:Hu; [|discriminate].
      intros H. injection H as <-. cbn [state].
      apply (updateCharacterSelect_wellFormed _ _ _ _ _ Hwf Hu).
    + destruct (updatePlaying rt dt g) as [[rt1 g1]|] eqn:Hu; [|discriminate].
      intros H. injection H as <-.
      apply (updatePlaying_wellFormed _ _ _ _ _ Hwf Hu).
    + destruct (updateGameOver (state rt) (input rt))
        as [[s i]|] eqn:Hu; [|discriminate].
      intros H. injection H as <-. cbn [state].
      apply (updateGameOver_wellFormed _ _ _ _ Hwf Hu).
  - intros H. injection H as <-. exact Hwf.
  - intros H. injection H as <-. exact Hwf.
  - intros H. injection H as <-.
    unfold wellFormed. cbn. split; [discriminate|]. auto.
  - intros H. injection H as <-. cbn [state withState].
    unfold selectCharacter.
    destruct ((0 <=? k)%Z && (k <? CHARACTERS_length)%Z); exact Hwf.
  - destruct (beginPlay (state rt)) as [s|] eqn:Hb; [|discriminate].
    intros H. injection H as <-. apply (beginPlay_wellFormed _ _ Hb).
  - destruct (beginPlay (state rt)) as [s|] eqn:Hb; [|discriminate].
    intros H. injection H as <-. apply (beginPlay_wellFormed _ _ Hb).
  - intros H. injection H as <-.
    unfold wellFormed. cbn. split; [discriminate|]. auto.
Qed.

(** X20: in every reachable session there is a player while the screen is
    [playing]; the player has the size and speed that [createPlayer] gives,
    stands on its line and is inside the field; every item is made from
    the catalog; and the score is not negative. *)
Theorem reachable_wellFormed (rt : GameRuntime) :
  reachable rt ->
  (screen (state rt) = playing -> player (state rt) <> None)
  /\ (forall p, player (state rt) = Some p -> playerInField p)
  /\ Forall fromCatalog (items (state rt))
  /\ (0 <= score (state rt))%Z.
Proof.
  induction 1 as [|rt rt' e _ IH He].
  - cbn. split; [discriminate|]. split; [discriminate|].
    split; [constructor|lia].
  - apply (handle_wellFormed rt e rt' IH He).
Qed.

(** X16: the update of the character menu uses up the flags it reads:
    afterwards [left], [right] and [confirm] are clear, [restart] and [back]
    are untouched, and a further update with the flags it returned changes
    nothing (a held key acts once). *)
Theorem updateCharacterSelect_debounced (s : GameState) (i : InputState)
    (dt : Q) (s' : GameState) (i' : InputState) :
  updateCharacterSelect s i dt = Some (s', i') ->
  left i' = false /\ right i' = false /\ confirm i' = false
  /\ restart i' = restart i /\ back i' = back i
  /\ forall dt', updateCharacterSelect s' i' dt' = Some (s', i').
Proof.
  unfold updateCharacterSelect.
  destruct i as [l r c rs b].
  destruct l; cbn [left right confirm restart back set_left set_right];
    destruct r; cbn [left right confirm restart back set_left set_right set_confirm];
    (destruct c;
     [ match goal with
       | |- context [beginPlay ?s0] =>
           destruct (beginPlay s0) as [s3|]; [|discriminate]
       end
     | ]);
    intros H; injection H as <- <-; repeat split.
Qed.

Lemma ofNat_S (n : nat) : ofNat (S n) == ofNat n + 1.
Proof.
  unfold ofNat. rewrite Nat2Z.inj_succ. unfold Z.succ.
  rewrite inject_Z_plus. reflexivity.
Qed.

Lemma spawnBody_accumulator (diff : Difficulty) (iv : Q) (s : GameState)
    (g : Rng) (s' : GameState) (g' : Rng) :
  spawnBody diff iv s g = Some (s', g') ->
  spawnAccumulator s' = spawnAccumulator s - iv
  /\ exists item, items s' = items s ++ [item].
Proof.
  intros Hb. apply spawnBody_detail in Hb.
  destruct Hb as (ty & s2 & g2 & item & Hp & _ & ->).
  destruct (pickItemType_cases
              (set_spawnAccumulator s (spawnAccumulator s - iv)) g)
    as (ty' & g3 & [[Hp' _] | [Hp' _]]);
    rewrite Hp' in Hp; injection Hp as _ <- _; simpl;
    (split; [reflexivity|eexists; reflexivity]).
Qed.

(** X11: the accumulator after the scheduler is the accumulator before,
    plus [dt], minus one spawn interval per new item; with fewer new items
    than the cap it is below one interval; with a spawn rate that is not
    positive nothing spawns; and a non-negative accumulator stays
    non-negative for a non-negative [dt]. *)
Theorem spawnScheduler_accounting (diff : Difficulty) (s : GameState) (dt : Q)
    (g : Rng) :
  exists s' g' new,
    spawnScheduler diff s dt g = Some (s', g')
    /\ items s' = items s ++ new
    /\ (0 < d_spawnRate diff ->
        spawnAccumulator s'
        == spawnAccumulator s + dt - ofNat (List.length new) * (1 / d_spawnRate diff)
        /\ ((List.length new < MAX_SPAWNS_PER_FRAME)%nat ->
            spawnAccumulator s' < 1 / d_spawnRate diff))
    /\ (d_spawnRate diff <= 0 ->
        new = [] /\ spawnAccumulator s' = spawnAccumulator s + dt)
    /\ (0 <= spawnAccumulator s -> 0 <= dt -> 0 <= spawnAccumulator s').
Proof.
  destruct (spawnScheduler_bounded diff s dt g)
    as (s' & g' & new & H & Hitems & _).
  exists s', g', new. split; [exact H|]. split; [exact Hitems|].
  unfold spawnScheduler in H.
  destruct (gtb (d_spawnRate diff) 0) eqn:Hrate.
  - apply ltb_true in Hrate.
    set (iv := 1 / d_spawnRate diff) in *.
    set (s0 := set_spawnAccumulator s (spawnAccumulator s + dt)) in *.
    destruct (spawnLoop_rule diff iv
                (fun n s1 _ =>
                   exists new1,
                     items s1 = items s ++ new1
                     /\ List.length new1 = n
                     /\ spawnAccumulator s1
                        == spawnAccumulator s + dt - ofNat n * iv
                     /\ (0 <= spawnAccumulator s -> 0 <= dt ->
                         0 <= spawnAccumulator s1)))
      with (k := MAX_SPAWNS_PER_FRAME) (n := 0%nat) (s := s0) (g := g)
           (s' := s') (g' := g')
      as (n' & (new1 & Hi & Hlen & Hacc & Hpos) & Hexit);
      try assumption; try reflexivity.
    + intros n s1 g1 s2 g2 (new1 & Hi & Hlen & Hacc & Hpos) Hc Hb.
      destruct (spawnBody_accumulator _ _ _ _ _ _ Hb) as (Ha & item & Hit).
      exists (new1 ++ [item]).
      split; [rewrite Hit, Hi, app_assoc; reflexivity|].
      split; [rewrite length_app; simpl; lia|].
      rewrite Ha. split; [rewrite Hacc, ofNat_S; ring|].
      intros H1 H2. unfold spawnCondition in Hc.
      apply andb_prop in Hc. destruct Hc as [Hc _].
      apply Qle_bool_iff in Hc. lra.
    + exists []. rewrite app_nil_r. split; [reflexivity|].
      split; [reflexivity|]. split; [simpl; unfold ofNat; simpl; ring|].
      simpl. intros; lra.
    + rewrite Hi in Hitems. apply app_inv_head in Hitems. subst new1.
      split; [|split; [intros; lra|exact Hpos]].
      intros _. rewrite Hlen. split; [exact Hacc|].
      intros Hlt. unfold spawnCondition in Hexit.
      apply andb_false_iff in Hexit. destruct Hexit as [He | He].
      * unfold geb in He. apply Qle_bool_false in He. exact He.
      * apply Nat.ltb_ge in He. lia.
  - apply ltb_false in Hrate. injection H as <- <-.
    simpl in Hitems. rewrite <- (app_nil_r (items s)) in Hitems at 1.
    apply app_inv_head in Hitems. subst new.
    split; [intros; lra|]. split; [intros; split; reflexivity|].
    simpl. intros; lra.
Qed.

Lemma index_cases (s : GameState) :
  indexInRange s ->
  selectedCharacterIndex s = 0%Z \/ selectedCharacterIndex s = 1%Z
  \/ selectedCharacterIndex s = 2%Z \/ selectedCharacterIndex s = 3%Z.
Proof. unfold indexInRange. rewrite CHARACTERS_length_4. lia. Qed.

(** X17: in the character menu, [left] and [right] in one frame cancel;
    [left] in one frame and [right] in the next, or the other way round,
    come back to the same session; and so do [CHARACTERS.length] presses of
    the same key. *)
Theorem cycling_round_trips (s : GameState) :
  indexInRange s ->
  pressTimes 1 bothPressed s = Some s
  /\ (exists s1, pressTimes 1 leftPressed s = Some s1
                 /\ pressTimes 1 rightPressed s1 = Some s)
  /\ (exists s1, pressTimes 1 rightPressed s = Some s1
                 /\ pressTimes 1 leftPressed s1 = Some s)
  /\ pressTimes (Z.to_nat CHARACTERS_length) rightPressed s = Some s
  /\ pressTimes (Z.to_nat CHARACTERS_length) leftPressed s = Some s.
Proof.
  intros H. destruct (index_cases s H) as [E | [E | [E | E]]];
    destruct s; cbn [selectedCharacterIndex] in E; subst;
    repeat split; try (eexists; split); reflexivity.
Qed.

Lemma oneOf_In (code : string) (codes : list string) :
  oneOf code codes = true -> In code codes.
Proof.
  unfold oneOf. intros H. apply existsb_exists in H.
  destruct H as (c & Hin & Heq). apply String.eqb_eq in Heq. subst. exact Hin.
Qed.

(** X18: releasing a key after pressing it leaves the flags as releasing
    alone does; pressed and released from the cleared state gives the
    cleared state; and a key code that is not bound changes no flag. *)
Theorem keyboard_flags (code : string) (i : InputState) :
  keyUp code (keyDown code i) = keyUp code i
  /\ keyUp code (keyDown code createInputState) = createInputState
  /\ (~ In code boundCodes -> keyDown code i = i /\ keyUp code i = i).
Proof.
  unfold keyUp, keyDown, keySwitch, boundCodes.
  destruct (oneOf code ["ArrowLeft"; "KeyA"]) eqn:E1;
    [|destruct (oneOf code ["ArrowRight"; "KeyD"]) eqn:E2;
      [|destruct (oneOf code ["Enter"; "Space"]) eqn:E3;
        [|destruct (oneOf code ["KeyR"]) eqn:E4;
          [|destruct (oneOf code ["Escape"; "Backspace"]) eqn:E5]]]];
    (split; [destruct i; reflexivity|split; [reflexivity|]]);
    intros Hn; try (split; reflexivity); exfalso; apply Hn;
    match goal with
    | E : oneOf code _ = true |- _ => apply oneOf_In in E; simpl in E
    end; simpl; tauto.
Qed.

(** X19: on the start screen no sequence of frames and key events changes
    the session: only an action of the menu leaves that screen. *)
Theorem start_screen_inert (es : list Event) :
  forall rt : GameRuntime,
    screen (state rt) = start ->
    forallb noMenuAction es = true ->
    exists rt', run rt es = Some rt' /\ state rt' = state rt.
Proof.
  induction es as [|e rest IH]; intros rt Hs Hall; simpl in *.
  - exists rt. auto.
  - apply andb_prop in Hall. destruct Hall as [He Hrest].
    destruct e; try discriminate He; cbn [handle].
    + unfold update. rewrite Hs. cbn [option_map fst].
      apply IH; assumption.
    + destruct (IH (withInput rt (keyDown code (input rt))) Hs Hrest)
        as (rt' & Hr & Hst).
      exists rt'. auto.
    + destruct (IH (withInput rt (keyUp code (input rt))) Hs Hrest)
        as (rt' & Hr & Hst).
      exists rt'. auto.
Qed.

(** X7: the movement of a frame keeps a player that is not wider than the
    field inside [[0, width - player.width]] and never moves it vertically;
    a player inside the field does not move when [left] and [right] agree,
    and moves by at most [speed * dt] to the side of the one key held. *)
Theorem movePlayer_stays_in_field (p : Player) (i : InputState) (dt : Q) :
  width p <= cfg_width GAME_CONFIG ->
  0 <= x (movePlayer p i dt) <= cfg_width GAME_CONFIG - width p
  /\ width (movePlayer p i dt) = width p
  /\ y (movePlayer p i dt) = y p
  /\ (0 <= x p <= cfg_width GAME_CONFIG - width p ->
      (left i = right i -> x (movePlayer p i dt) == x p)
      /\ (0 <= speed p * dt ->
          (left i = true -> right i = false ->
           x p - speed p * dt <= x (movePlayer p i dt) <= x p)
          /\ (left i = false -> right i = true ->
              x p <= x (movePlayer p i dt) <= x p + speed p * dt))).
Proof.
  intros Hw. split; [apply movePlayer_in_field; exact Hw|].
  split; [reflexivity|]. split; [reflexivity|].
  intros Hx. unfold movePlayer, Math_max, Math_min. cbn [x p_rect].
  split; [|intros Hd; split; intros Hl Hr; rewrite Hl, Hr];
    [intros Hlr; rewrite Hlr; destruct (right i)|..];
    qcases; lra.
Qed.

(** X15: after the ageing of a frame every miss effect has time left, there
    are no more effects than before, each is a former effect with [dt]
    taken off its timer and nothing else changed, and all effects whose
    timer is at most [dt] are gone. *)
Theorem ageMissEffects_expires (fxs : list MissEffect) (dt : Q) :
  Forall (fun fx => 0 < timer fx) (ageMissEffects fxs dt)
  /\ (List.length (ageMissEffects fxs dt) <= List.length fxs)%nat
  /\ (forall fx, In fx (ageMissEffects fxs dt) ->
        exists fx0, In fx0 fxs /\ timer fx = timer fx0 - dt
                    /\ maxTimer fx = maxTimer fx0
                    /\ fx_x fx = fx_x fx0 /\ fx_y fx = fx_y fx0
                    /\ radius fx = radius fx0)
  /\ (Forall (fun fx => timer fx <= dt) fxs -> ageMissEffects fxs dt = []).
Proof.
  unfold ageMissEffects. split; [|split; [|split]].
  - apply Forall_forall. intros fx Hin. apply filter_In in Hin.
    destruct Hin as [_ H]. unfold gtb in H. apply ltb_true in H. exact H.
  - etransitivity; [apply filter_length_le|]. rewrite length_map. lia.
  - intros fx Hin. apply filter_In in Hin. destruct Hin as [Hin _].
    apply in_map_iff in Hin. destruct Hin as (fx0 & <- & Hin0).
    exists fx0. repeat split. exact Hin0.
  - induction fxs as [|fx rest IH]; intros Hall; [reflexivity|].
    inversion Hall as [|? ? Hfx Hrest]; subst. simpl.
    unfold gtb at 1. cbn [timer].
    assert (E : ltb 0 (timer fx - dt) = false) by (apply ltb_false; lra).
    rewrite E. apply IH. exact Hrest.
Qed.

(** X21: in the canvas variant [back] on the game-over screen (with
    [restart] clear) resets the session, keeps the selected index, clears
    the flag and lands on [character-select]. *)
Theorem classic_back_to_character_select (s : Classic.GameState)
    (i : InputState) :
  restart i = false -> back i = true ->
  exists s' i',
    Classic.updateGameOver s i = Some (s', i')
    /\ Classic.type s' = Classic.character_select
    /\ Classic.selectedCharacterIndex s' = Classic.selectedCharacterIndex s
    /\ Classic.player s' = None
    /\ Classic.score s' = 0%Z
    /\ Classic.lives s' = initialLives GAME_CONFIG
    /\ Classic.elapsedTime s' = 0
    /\ Classic.spawnAccumulator s' = 0
    /\ Classic.items s' = []
    /\ back i' = false.
Proof.
  intros Hr Hb. unfold Classic.updateGameOver. rewrite Hr, Hb.
  do 2 eexists. split; [reflexivity|]. repeat split.
Qed.





(** *** The spawn loop on doubles *)

Lemma classic64_pickItemType_some (s : ClassicBinary64.GameState) :
  exists ty, ClassicBinary64.pickItemType s = Some ty
             /\ In ty ClassicBinary64.ITEM_TYPES.
Proof.
  unfold ClassicBinary64.pickItemType.
  destruct (_ =? 0)%Z; [eexists; split; [reflexivity|simpl; tauto]|].
  destruct (_ =? 1)%Z; simpl; [eexists; split; [reflexivity|tauto]|].
  destruct (_ =? 2)%Z; simpl; eexists; split; try reflexivity; tauto.
Qed.

Lemma classic64_spawnBody_spec (diff : float * float) (iv : float)
    (s : ClassicBinary64.GameState) (g : ClassicBinary64.Rng) :
  exists s' item,
    ClassicBinary64.spawnBody diff iv s g
    = Some (s', ClassicBinary64.mkRng (ClassicBinary64.draws g)
                  (S (ClassicBinary64.cursor g)))
    /\ ClassicBinary64.spawnAccumulator s'
       = (ClassicBinary64.spawnAccumulator s - iv)%float
    /\ ClassicBinary64.items s' = ClassicBinary64.items s ++ [item]
    /\ In (ClassicBinary64.type item) ClassicBinary64.ITEM_TYPES
    /\ ClassicBinary64.selectedCharacterIndex s'
       = ClassicBinary64.selectedCharacterIndex s.
Proof.
  destruct (classic64_pickItemType_some s) as (ty & Hty & Hin).
  unfold ClassicBinary64.spawnBody. rewrite Hty.
  unfold ClassicBinary64.createFallingItem, ClassicBinary64.Math_random.
  cbv zeta. eexists. eexists. split; [reflexivity|].
  cbn. repeat split. exact Hin.
Qed.

(** X22: on doubles the spawn loop of the canvas variant has no cap and
    need not end: when the accumulator is at least the interval and taking
    the interval off leaves it as it is, the loop is still running after
    any number of passes.  The loop never throws.  When it returns, the
    accumulator is no longer at least the interval, one item of the
    catalog was added and one random number drawn per pass, and allowing
    more passes gives the same result. *)
Theorem classic_spawnLoop_binary64 (diff : float * float) (iv : float)
    (s : ClassicBinary64.GameState) (g : ClassicBinary64.Rng) :
  ((iv <=? ClassicBinary64.spawnAccumulator s)%float = true ->
   (ClassicBinary64.spawnAccumulator s - iv)%float
   = ClassicBinary64.spawnAccumulator s ->
   forall passes,
     ClassicBinary64.spawnLoop passes diff iv s g = ClassicBinary64.Running)
  /\ (forall passes,
        ClassicBinary64.spawnLoop passes diff iv s g <> ClassicBinary64.Throws)
  /\ (forall passes s' g',
        ClassicBinary64.spawnLoop passes diff iv s g
        = ClassicBinary64.Returns s' g' ->
        (iv <=? ClassicBinary64.spawnAccumulator s')%float = false
        /\ exists new,
             ClassicBinary64.items s' = ClassicBinary64.items s ++ new
             /\ (List.length new <= passes)%nat
             /\ Forall (fun it => In (ClassicBinary64.type it)
                                     ClassicBinary64.ITEM_TYPES) new
             /\ ClassicBinary64.cursor g'
                = (ClassicBinary64.cursor g + List.length new)%nat
             /\ forall more,
                  ClassicBinary64.spawnLoop (passes + more) diff iv s g
                  = ClassicBinary64.Returns s' g').
Proof.
  split; [|split].
  - intros Hge Habs passes. revert s g Hge Habs.
    induction passes as [|n IH]; intros s g Hge Habs;
      cbn [ClassicBinary64.spawnLoop]; rewrite Hge; [reflexivity|].
    destruct (classic64_spawnBody_spec diff iv s g)
      as (s1 & item & Hb & Hacc & _).
    rewrite Hb. apply IH; rewrite Hacc, Habs; assumption.
  - intros passes. revert s g.
    induction passes as [|n IH]; intros s g;
      cbn [ClassicBinary64.spawnLoop];
      destruct (iv <=? _)%float; try discriminate.
    destruct (classic64_spawnBody_spec diff iv s g)
      as (s1 & item & Hb & _).
    rewrite Hb. apply IH.
  - intros passes. revert s g.
    induction passes as [|n IH]; intros s g s' g';
      cbn [ClassicBinary64.spawnLoop];
      destruct (iv <=? ClassicBinary64.spawnAccumulator s)%float eqn:Hge;
      try discriminate.
    + intros [= <- <-]. split; [exact Hge|]. exists [].
      rewrite app_nil_r, Nat.add_0_r.
      split; [reflexivity|]. split; [cbn [List.length]; lia|].
      split; [constructor|]. split; [reflexivity|].
      intros more. destruct more; cbn [ClassicBinary64.spawnLoop Nat.add];
        rewrite Hge; reflexivity.
    + destruct (classic64_spawnBody_spec diff iv s g)
        as (s1 & item & Hb & _ & Hitems & Hin & _).
      rewrite Hb. intros Hrun.
      destruct (IH _ _ _ _ Hrun) as (Hexit & new & Hi & Hlen & Hcat & Hcur & Hmore).
      split; [exact Hexit|]. exists (item :: new).
      rewrite Hi, Hitems, <- app_assoc. cbn [app List.length].
      split; [reflexivity|]. split; [lia|]. split; [constructor; assumption|].
      split; [rewrite Hcur; cbn [ClassicBinary64.cursor]; lia|].
      intros more. cbn [Nat.add ClassicBinary64.spawnLoop]. rewrite Hge, Hb.
      apply Hmore.
    + intros [= <- <-]. split; [exact Hge|]. exists [].
      rewrite app_nil_r, Nat.add_0_r.
      split; [reflexivity|]. split; [cbn [List.length]; lia|].
      split; [constructor|]. split; [reflexivity|].
      intros more. cbn [Nat.add ClassicBinary64.spawnLoop]. rewrite Hge.
      reflexivity.
Qed.

Lemma classic_spawnLoop_binary64_witness :
  ClassicBinary64.spawnLoop 1000 (0.6, 0.8)%float (1 / 0.6)%float
    hugeBacklog halfDraws64 = ClassicBinary64.Running.
Proof.
  apply (proj1 (classic_spawnLoop_binary64 (0.6, 0.8)%float (1 / 0.6)%float
                  hugeBacklog halfDraws64)); reflexivity.
Defined.

(** Forty seconds in one frame, with the difficulty of 40s: in exact
    arithmetic the spawn rate is 7/5 and 56 intervals fit; on doubles the
    rate is 1.3999999999999999, the loop makes 55 passes and leaves an
    accumulator just below the interval.  The menu-driven variant stops at
    two. *)
Example classic_long_frame_binary64 :
  (exists s g,
      ClassicBinary64.spawnScheduler 100 (Binary64.getDifficulty 40)
        noBacklog 40 halfDraws64 = ClassicBinary64.Returns s g
      /\ List.length (ClassicBinary64.items s) = 55%nat
      /\ ClassicBinary64.spawnAccumulator s = 0.7142857142856879%float)
  /\ option_map
       (fun r => List.length (Classic.items (fst r)))
       (Classic.spawnScheduler (getDifficulty 40)
          (Classic.set_index Classic.createInitialState 1) 40 halfDraws)
     = Some 56%nat.
Proof.
  split; [|vm_compute; reflexivity].
  eexists. eexists. split; [vm_compute; reflexivity|].
  split; vm_compute; reflexivity.
Qed.

(** X23: [getCharacterSlots] gives one slot of 160 by 210 per character,
    centred vertically, each 16 to the right of the end of the one before,
    and the row is centred: the first slot is as far from the left edge as
    the last one from the right edge. *)
Theorem classic_slots_layout (canvasWidth canvasHeight : Q) :
  let slots := Classic.getCharacterSlots canvasWidth canvasHeight in
  List.length slots = List.length Classic.CHARACTERS
  /\ Forall (fun sl => Classic.slot_width sl = 160
                       /\ Classic.slot_height sl = 210
                       /\ Classic.slot_y sl + Classic.slot_height sl / 2
                          == canvasHeight / 2) slots
  /\ (forall k a b,
         nth_error slots k = Some a -> nth_error slots (S k) = Some b ->
         Classic.slot_x b == Classic.slot_x a + Classic.slot_width a + 16)
  /\ (forall a b,
         hd_error slots = Some a -> nth_error slots 2 = Some b ->
         Classic.slot_x a == canvasWidth - (Classic.slot_x b + Classic.slot_width b)).
Proof.
  unfold Classic.getCharacterSlots. cbn [List.length Classic.CHARACTERS
    Classic.slotsFrom]. cbv zeta.
  split; [reflexivity|]. split; [|split].
  - repeat constructor; cbn [Classic.slot_y Classic.slot_height]; field.
  - intros k a b Ha Hb.
    destruct k as [|[|[|k]]]; cbn in Ha, Hb; try discriminate;
      injection Ha as <-; injection Hb as <-;
      cbn [Classic.slot_x Classic.slot_width]; unfold inject_Z; field.
  - intros a b Ha Hb. cbn in Ha, Hb.
    injection Ha as <-; injection Hb as <-.
    cbn [Classic.slot_x Classic.slot_width].
    unfold Classic.CHARACTERS_length. cbn. unfold inject_Z. field.
Qed.

Lemma classic_beginPlay_some (s : Classic.GameState) :
  (0 <= Classic.selectedCharacterIndex s < Classic.CHARACTERS_length)%Z ->
  exists s',
    Classic.beginPlay s = Some s'
    /\ Classic.type s' = Classic.playing
    /\ Classic.selectedCharacterIndex s' = Classic.selectedCharacterIndex s
    /\ Classic.lives s' = 3%Z
    /\ Classic.player s' <> None
    /\ Classic.score s' = 0%Z
    /\ Classic.items s' = [].
Proof.
  unfold Classic.CHARACTERS_length, Classic.beginPlay, index. simpl.
  intros [Hlo Hhi].
  destruct (Classic.selectedCharacterIndex s <? 0)%Z eqn:E;
    [apply Z.ltb_lt in E; lia|].
  destruct (Z.to_nat (Classic.selectedCharacterIndex s)) as [|[|[|n]]] eqn:En;
    simpl; try lia;
    eexists; (split; [reflexivity|]); repeat split; discriminate.
Qed.

(** X24: a click outside the character menu, or in the menu outside every
    slot, changes nothing; a click in the [k]-th slot, borders included,
    selects character [k] and starts the round. *)
Theorem classic_click_selects (s : Classic.GameState) (cx cy : Q) :
  (Classic.type s <> Classic.character_select ->
   Classic.handleClick s cx cy = Some s)
  /\ (Classic.type s = Classic.character_select ->
      (forall sl, In sl fieldSlots -> ~ inSlot sl cx cy) ->
      Classic.handleClick s cx cy = Some s)
  /\ (Classic.type s = Classic.character_select ->
      forall (k : nat) (sl : Classic.CharacterSlot),
        nth_error fieldSlots k = Some sl -> inSlot sl cx cy ->
        exists s',
          Classic.handleClick s cx cy = Some s'
          /\ Classic.type s' = Classic.playing
          /\ Classic.selectedCharacterIndex s' = Z.of_nat k
          /\ Classic.beginPlay (Classic.set_index s (Z.of_nat k)) = Some s').
Proof.
  split; [|split].
  - intros H. unfold Classic.handleClick.
    destruct (Classic.type s); [contradiction H|..]; reflexivity.
  - intros Ht Hout. unfold Classic.handleClick. rewrite Ht.
    assert (H0 : ~ inSlot {| Classic.slot_x := 188 # 2; Classic.slot_y := 580 # 4;
                            Classic.slot_width := 160; Classic.slot_height := 210 |}
                          cx cy)
      by (apply Hout; vm_compute; tauto).
    assert (H1 : ~ inSlot {| Classic.slot_x := 540 # 2; Classic.slot_y := 580 # 4;
                            Classic.slot_width := 160; Classic.slot_height := 210 |}
                          cx cy)
      by (apply Hout; vm_compute; tauto).
    assert (H2 : ~ inSlot {| Classic.slot_x := 892 # 2; Classic.slot_y := 580 # 4;
                            Classic.slot_width := 160; Classic.slot_height := 210 |}
                          cx cy)
      by (apply Hout; vm_compute; tauto).
    unfold inSlot in H0, H1, H2.
    cbn [Classic.slot_x Classic.slot_y Classic.slot_width Classic.slot_height]
      in H0, H1, H2.
    change (Classic.getCharacterSlots (cfg_width GAME_CONFIG)
              (cfg_height GAME_CONFIG))
      with [ {| Classic.slot_x := 188 # 2; Classic.slot_y := 580 # 4;
                Classic.slot_width := 160; Classic.slot_height := 210 |};
             {| Classic.slot_x := 540 # 2; Classic.slot_y := 580 # 4;
                Classic.slot_width := 160; Classic.slot_height := 210 |};
             {| Classic.slot_x := 892 # 2; Classic.slot_y := 580 # 4;
                Classic.slot_width := 160; Classic.slot_height := 210 |} ].
    cbn [Classic.clickLoop Classic.slot_x Classic.slot_y Classic.slot_width
         Classic.slot_height].
    unfold geb, leb.
    qcases; try reflexivity; exfalso;
      first [apply H0; lra | apply H1; lra | apply H2; lra].
  - intros Ht k sl Hk Hin. unfold Classic.handleClick. rewrite Ht.
    unfold fieldSlots in Hk.
    change (Classic.getCharacterSlots (cfg_width GAME_CONFIG)
              (cfg_height GAME_CONFIG))
      with [ {| Classic.slot_x := 188 # 2; Classic.slot_y := 580 # 4;
                Classic.slot_width := 160; Classic.slot_height := 210 |};
             {| Classic.slot_x := 540 # 2; Classic.slot_y := 580 # 4;
                Classic.slot_width := 160; Classic.slot_height := 210 |};
             {| Classic.slot_x := 892 # 2; Classic.slot_y := 580 # 4;
                Classic.slot_width := 160; Classic.slot_height := 210 |} ]
      in *.
    unfold inSlot in Hin.
    destruct k as [|[|[|k]]]; cbn in Hk; try discriminate;
      [| | |destruct k; discriminate];
      injection Hk as <-;
      cbn [Classic.slot_x Classic.slot_y Classic.slot_width Classic.slot_height]
        in Hin;
      cbn [Classic.clickLoop Classic.slot_x Classic.slot_y Classic.slot_width
           Classic.slot_height];
      unfold geb, leb; qcases;
      match goal with
      | |- context [Classic.beginPlay ?s0] =>
          destruct (classic_beginPlay_some s0)
            as (s' & Hb & Hty & Hidx & _);
          [cbn; unfold Classic.CHARACTERS_length; cbn; lia|];
          exists s'; cbn in Hb, Hidx |- *; rewrite Hb; auto
      end.
Qed.





Section ClassicItemLoop.

Variables (p : Player) (dt groundY : Q).


End ClassicItemLoop.




Lemma cacheGet_set_same (p : string) (r : Assets.LoadedImage)
    (c : Assets.ImageCache) :
  Assets.cacheGet p (Assets.cacheSet p r c) = Some r.
Proof.
  induction c as [|[k r0] rest IH]; simpl.
  - rewrite String.eqb_refl. reflexivity.
  - destruct (k =? p)%string eqn:E; simpl; rewrite E; [reflexivity|exact IH].
Qed.

Lemma cacheGet_set_other (p q : string) (r : Assets.LoadedImage)
    (c : Assets.ImageCache) :
  q <> p -> Assets.cacheGet q (Assets.cacheSet p r c) = Assets.cacheGet q c.
Proof.
  intros Hne. induction c as [|[k r0] rest IH]; simpl.
  - destruct (p =? q)%string eqn:E; [|reflexivity].
    apply String.eqb_eq in E. congruence.
  - destruct (k =? p)%string eqn:E; simpl.
    + apply String.eqb_eq in E. subst k.
      destruct (p =? q)%string eqn:E2; [|reflexivity].
      apply String.eqb_eq in E2. congruence.
    + destruct (k =? q)%string; [reflexivity|exact IH].
Qed.

Lemma cacheGet_onerror (p q : string) (c : Assets.ImageCache) :
  Assets.cacheGet q (Assets.onerror p c)
  = if (q =? p)%string
    then option_map (fun r => {| Assets.img := None;
                                 Assets.path := Assets.path r |})
                    (Assets.cacheGet q c)
    else Assets.cacheGet q c.
Proof.
  induction c as [|[k r0] rest IH]; simpl.
  - destruct (q =? p)%string; reflexivity.
  - destruct (k =? p)%string eqn:E1; simpl;
      destruct (k =? q)%string eqn:E2; try exact IH.
    + apply String.eqb_eq in E1, E2. subst.
      rewrite String.eqb_refl. reflexivity.
    + apply String.eqb_eq in E2. subst k.
      rewrite E1. reflexivity.
Qed.

Lemma getCachedImage_nonempty (p : string) (c : Assets.ImageCache) :
  p <> "" ->
  Assets.getCachedImage (Some p) c
  = match Assets.cacheGet p c with
    | Some cached => (cached, c)
    | None => ({| Assets.img := Some p; Assets.path := Some p |},
               Assets.cacheSet p {| Assets.img := Some p; Assets.path := Some p |} c)
    end.
Proof.
  intros H. destruct p; [contradiction H; reflexivity|reflexivity].
Qed.

(** X26: once a non-empty path was looked up, looking it up again returns
    the same record and leaves the cache as it is; a path that was not
    cached gets a record with an image for that path; and the other paths
    of the cache are not touched. *)
Theorem getCachedImage_caches (p : string) (c : Assets.ImageCache) :
  p <> "" ->
  let r1 := fst (Assets.getCachedImage (Some p) c) in
  let c1 := snd (Assets.getCachedImage (Some p) c) in
  Assets.getCachedImage (Some p) c1 = (r1, c1)
  /\ Assets.cacheGet p c1 = Some r1
  /\ (Assets.cacheGet p c = None ->
      r1 = {| Assets.img := Some p; Assets.path := Some p |})
  /\ (forall q, q <> p -> Assets.cacheGet q c1 = Assets.cacheGet q c).
Proof.
  intros Hp r1 c1. subst r1 c1.
  rewrite (getCachedImage_nonempty p c Hp).
  destruct (Assets.cacheGet p c) as [cached|] eqn:Hget; cbn [fst snd].
  - rewrite (getCachedImage_nonempty p c Hp), Hget.
    repeat split; try assumption. discriminate.
  - rewrite (getCachedImage_nonempty p _ Hp), cacheGet_set_same.
    repeat split. intros q Hq. apply cacheGet_set_other. exact Hq.
Qed.

(** X27: after the load of a cached image failed, a lookup of its path
    returns the record without image and makes no new image; the other
    paths are not touched, and a second failure changes nothing. *)
Theorem getCachedImage_failed_load_sticks (p : string)
    (c : Assets.ImageCache) (r : Assets.LoadedImage) :
  p <> "" -> Assets.cacheGet p c = Some r ->
  Assets.getCachedImage (Some p) (Assets.onerror p c)
  = ({| Assets.img := None; Assets.path := Assets.path r |}, Assets.onerror p c)
  /\ (forall q, q <> p ->
        Assets.cacheGet q (Assets.onerror p c) = Assets.cacheGet q c)
  /\ Assets.onerror p (Assets.onerror p c) = Assets.onerror p c.
Proof.
  intros Hp Hget. split; [|split].
  - rewrite (getCachedImage_nonempty p _ Hp), cacheGet_onerror,
      String.eqb_refl, Hget. reflexivity.
  - intros q Hq. rewrite cacheGet_onerror.
    destruct (q =? p)%string eqn:E; [|reflexivity].
    apply String.eqb_eq in E. contradiction.
  - unfold Assets.onerror. rewrite map_map. apply map_ext.
    intros [k r0]. cbn [fst snd].
    destruct (k =? p)%string eqn:E; cbn [fst snd]; rewrite E; reflexivity.
Qed.

(** ** Witnesses of the further properties *)

Lemma getDifficulty_monotone_witness :
  d_spawnRate (getDifficulty 10) <= d_spawnRate (getDifficulty 70)
  /\ d_speedMultiplier (getDifficulty 10) <= d_speedMultiplier (getDifficulty 70).
Proof.
  apply (getDifficulty_monotone 10 70). lra.
Defined.

Lemma getDifficulty_at_keyframes_witness :
  d_spawnRate (getDifficulty 60) == 1.8
  /\ d_speedMultiplier (getDifficulty 60) == 1.2.
Proof.
  apply (getDifficulty_at_keyframes
           {| time := 60; spawnRate := 1.8; speedMultiplier := 1.2 |}).
  simpl. tauto.
Defined.

Lemma createFallingItem_in_field_witness :
  let item := fst (createFallingItem bombItem 700 (Some 20)
                     (mkRng (fun _ => 0.99) 0)) in
  12 <= x item
  /\ x item + width item <= 700 - 12
  /\ y item + height item == 0
  /\ vy item = baseFallSpeed bombItem
  /\ type item = bombItem
  /\ cursor (snd (createFallingItem bombItem 700 (Some 20)
                    (mkRng (fun _ => 0.99) 0))) = 1%nat.
Proof.
  apply (createFallingItem_in_field bombItem 700 (Some 20)
           (mkRng (fun _ => 0.99) 0)); simpl; lra.
Defined.

Lemma movePlayer_stays_in_field_witness :
  0 <= x (movePlayer samplePlayer leftPressed 0.016)
  <= cfg_width GAME_CONFIG - width samplePlayer.
Proof.
  apply (proj1 (movePlayer_stays_in_field samplePlayer leftPressed 0.016
                  ltac:(simpl; lra))).
Defined.

Lemma updatePlaying_survivors_witness :
  exists rt' g',
    updatePlaying hazardRound 0.016 zeroDraws = Some (rt', g')
    /\ player (state rt') = Some (movePlayer samplePlayer (input hazardRound) 0.016)
    /\ Forall (inFlight (movePlayer samplePlayer (input hazardRound) 0.016)
                        groundLine)
         (items (state rt')).
Proof.
  apply (updatePlaying_survivors hazardRound 0.016 zeroDraws samplePlayer).
  reflexivity.
Defined.

Lemma updatePlaying_score_lives_witness :
  exists rt' g',
    updatePlaying hazardRound 0.016 zeroDraws = Some (rt', g')
    /\ (score (state hazardRound) <= score (state rt'))%Z
    /\ ((0 <= lives (state hazardRound))%Z ->
        (lives (state rt') <= lives (state hazardRound))%Z)
    /\ elapsedTime (state rt') = elapsedTime (state hazardRound) + 0.016.
Proof.
  apply (updatePlaying_score_lives hazardRound 0.016 zeroDraws samplePlayer).
  - reflexivity.
  - repeat constructor; simpl; lia.
Defined.

Lemma itemLoop_hazards_only_witness :
  fst (itemLoop samplePlayer 0.016 groundLine (items midRound) midRound [])
  = midRound.
Proof.
  apply (itemLoop_hazards_only samplePlayer 0.016 groundLine
           (items midRound) midRound []).
  constructor; [split; vm_compute; reflexivity|constructor].
Defined.

Lemma reachable_wellFormed_witness :
  (screen (state lateRound) = playing -> player (state lateRound) <> None)
  /\ (forall p, player (state lateRound) = Some p -> playerInField p)
  /\ Forall fromCatalog (items (state lateRound))
  /\ (0 <= score (state lateRound))%Z.
Proof.
  apply (reachable_wellFormed lateRound).
  apply (run_reachable [OnStart; OnStartGame; Frame 10 halfDraws]
           initialRuntime lateRound reachable_initial).
  vm_compute. reflexivity.
Defined.

Lemma updateCharacterSelect_debounced_witness :
  left createInputState = false /\ right createInputState = false
  /\ confirm createInputState = false
  /\ restart createInputState = restart leftPressed
  /\ back createInputState = back leftPressed
  /\ forall dt',
      updateCharacterSelect (set_selectedCharacterIndex createInitialState 3)
        createInputState dt'
      = Some (set_selectedCharacterIndex createInitialState 3, createInputState).
Proof.
  apply (updateCharacterSelect_debounced createInitialState leftPressed 0.016
           (set_selectedCharacterIndex createInitialState 3) createInputState).
  reflexivity.
Defined.

Lemma cycling_round_trips_witness :
  pressTimes (Z.to_nat CHARACTERS_length) rightPressed midRound = Some midRound.
Proof.
  apply (cycling_round_trips midRound).
  unfold indexInRange, CHARACTERS_length; simpl. lia.
Defined.

Lemma start_screen_inert_witness :
  exists rt',
    run initialRuntime keysAndFrames = Some rt'
    /\ state rt' = state initialRuntime.
Proof.
  apply (start_screen_inert keysAndFrames initialRuntime); reflexivity.
Defined.

Lemma classic_back_to_character_select_witness :
  exists s' i',
    Classic.updateGameOver classicLost backPressed = Some (s', i')
    /\ Classic.type s' = Classic.character_select
    /\ Classic.selectedCharacterIndex s' = Classic.selectedCharacterIndex classicLost
    /\ Classic.player s' = None
    /\ Classic.score s' = 0%Z
    /\ Classic.lives s' = initialLives GAME_CONFIG
    /\ Classic.elapsedTime s' = 0
    /\ Classic.spawnAccumulator s' = 0
    /\ Classic.items s' = []
    /\ back i' = false.
Proof.
  apply (classic_back_to_character_select classicLost backPressed);
    reflexivity.
Defined.


(** The click landed on the second character, and the round runs. *)
Example classicPicked_evaluated :
  Classic.selectedCharacterIndex (Classic.state classicPicked) = 1%Z
  /\ Classic.type (Classic.state classicPicked) = Classic.playing
  /\ Classic.lives (Classic.state classicPicked) = 3%Z.
Proof. vm_compute. repeat split; reflexivity. Qed.

Lemma getCachedImage_caches_witness :
  let r1 := fst (Assets.getCachedImage (Some bombPath) []) in
  let c1 := snd (Assets.getCachedImage (Some bombPath) []) in
  Assets.getCachedImage (Some bombPath) c1 = (r1, c1)
  /\ Assets.cacheGet bombPath c1 = Some r1
  /\ (Assets.cacheGet bombPath [] = None ->
      r1 = {| Assets.img := Some bombPath; Assets.path := Some bombPath |})
  /\ (forall q, q <> bombPath -> Assets.cacheGet q c1 = Assets.cacheGet q []).
Proof.
  apply (getCachedImage_caches bombPath []). discriminate.
Defined.

Lemma getCachedImage_failed_load_sticks_witness :
  Assets.getCachedImage (Some bombPath) (Assets.onerror bombPath bombCached)
  = ({| Assets.img := None; Assets.path := Some bombPath |},
     Assets.onerror bombPath bombCached).
Proof.
  apply (proj1 (getCachedImage_failed_load_sticks bombPath bombCached
                  {| Assets.img := Some bombPath; Assets.path := Some bombPath |}
                  ltac:(discriminate) ltac:(reflexivity))).
Defined.
